(** * Email extraction pipeline of src/lib/csvParser.ts

    A shallow embedding of the validator, the column detector and the two
    extraction pipelines (CSV and TSV), followed by the properties the
    specification states about them.

    Modelling conventions
    - A JavaScript string is a [string]: a sequence of code units, here
      restricted to the code units below 256 (Latin-1).  White space,
      lower-casing and the character classes of the regular expression are
      the ECMAScript ones on that range.
    - A parsed row is the list of its own enumerable properties in the
      order of their creation (the decoder creates them column by column);
      [Object.values] lists the properties named by an array index first;
      a cell is a string or some other JavaScript
      value (undefined, an array, ...).
    - [Set<string>] is a [gset string]; counters are [nat].
    - The promise returned by a pipeline is its [Outcome]: rejected with an
      error or resolved with a result. *)

From stdpp Require Import base strings list gmap.
From Stdlib Require Import Ascii.

Open Scope string_scope.
Open Scope list_scope.

(** ** JavaScript string primitives *)

Module Js.

(** Code units that [String.prototype.trim] strips and that [\s] matches:
    TAB, LF, VT, FF, CR, SPACE and NBSP (the ones below 256). *)
Definition isWhiteSpace (c : ascii) : bool :=
  let n := nat_of_ascii c in
  (((9 <=? n) && (n <=? 13)) || (n =? 32) || (n =? 160))%nat.

(** [String.prototype.toLowerCase] on one code unit: A-Z and the Latin-1
    capitals U+00C0..U+00DE (without the multiplication sign U+00D7). *)
Definition lowerChar (c : ascii) : ascii :=
  let n := nat_of_ascii c in
  if (((65 <=? n) && (n <=? 90))
      || ((192 <=? n) && (n <=? 222) && negb (n =? 215)))%nat
  then ascii_of_nat (n + 32)
  else c.

Fixpoint toLowerCase (s : string) : string :=
  match s with
  | EmptyString => EmptyString
  | String c r => String (lowerChar c) (toLowerCase r)
  end.

Fixpoint trimStart (s : string) : string :=
  match s with
  | EmptyString => EmptyString
  | String c r => if isWhiteSpace c then trimStart r else s
  end.

Fixpoint trimEnd (s : string) : string :=
  match s with
  | EmptyString => EmptyString
  | String c r =>
      match trimEnd r with
      | EmptyString => if isWhiteSpace c then EmptyString else String c EmptyString
      | r' => String c r'
      end
  end.

Definition trim (s : string) : string := trimEnd (trimStart s).

(** [hay.startsWith(needle)] *)
Fixpoint startsWith (needle hay : string) : bool :=
  match needle, hay with
  | EmptyString, _ => true
  | String _ _, EmptyString => false
  | String a n', String b h' => Ascii.eqb a b && startsWith n' h'
  end.

(** [hay.includes(needle)] *)
Fixpoint includes (needle hay : string) : bool :=
  startsWith needle hay ||
  match hay with
  | EmptyString => false
  | String _ h' => includes needle h'
  end.

(** Truthiness of a string: only the empty string is falsy. *)
Definition truthy (s : string) : bool :=
  match s with
  | EmptyString => false
  | String _ _ => true
  end.

(** Truthiness of [string | null] and of [string | undefined]. *)
Definition truthyOpt (o : option string) : bool :=
  match o with
  | Some s => truthy s
  | None => false
  end.

(** Truthiness of [boolean | undefined]. *)
Definition truthyFlag (o : option bool) : bool :=
  match o with
  | Some b => b
  | None => false
  end.

(** No code unit of the string is white space. *)
Fixpoint noWhiteSpace (s : string) : bool :=
  match s with
  | EmptyString => true
  | String c r => negb (isWhiteSpace c) && noWhiteSpace r
  end.

End Js.

(** ** The regular expression [/^[^\s@]+@[^\s@]+\.[^\s@]+$/]

    The matcher is written in continuation-passing style, one combinator per
    construct of the pattern; [plusThen] is the greedy, backtracking [+]. *)

Module Regex.

(** The class [[^\s@]]. *)
Definition notSpaceNorAt (c : ascii) : bool :=
  negb (Js.isWhiteSpace c) && negb (Ascii.eqb c "@"%char).

(** [cls+] followed by [k]: one character of the class, then either more
    of them (tried first) or the rest of the pattern. *)
Fixpoint plusThen (cls : ascii -> bool) (k : string -> bool) (s : string) : bool :=
  match s with
  | EmptyString => false
  | String c r => cls c && (plusThen cls k r || k r)
  end.

(** A literal character followed by [k]. *)
Definition litThen (a : ascii) (k : string -> bool) (s : string) : bool :=
  match s with
  | EmptyString => false
  | String c r => Ascii.eqb c a && k r
  end.

(** The anchor [$] (no multiline flag): end of input. *)
Definition atEnd (s : string) : bool :=
  match s with
  | EmptyString => true
  | String _ _ => false
  end.

(** [EMAIL_REGEX.test(s)]; the anchor [^] is the start of [s]. *)
Definition EMAIL_REGEX_test (s : string) : bool :=
  plusThen notSpaceNorAt
    (litThen "@"%char
       (plusThen notSpaceNorAt
          (litThen "."%char
             (plusThen notSpaceNorAt atEnd)))) s.

End Regex.

(** ** Validator *)

Definition isValidEmail (email : string) : bool :=
  Regex.EMAIL_REGEX_test (Js.trim email).

(** ** Data model *)

(** A cell as found in a row object at run time.  The declared type is
    [string]; the code nevertheless tests [typeof v === 'string'], so the
    other JavaScript values are kept as one case. *)
Inductive JsValue :=
| JsString (s : string)
| JsOther.

(** [ParsedRow]: the own enumerable properties of the row object, in the
    order of their creation, with distinct names.  The decoder creates them
    column by column, so this is column order. *)
Definition ParsedRow := list (string * JsValue).

(** [row[column]]; [None] is [undefined].  What a plain object inherits is
    never a string, so an inherited property reads like an absent one. *)
Fixpoint getProperty (row : ParsedRow) (column : string) : option JsValue :=
  match row with
  | [] => None
  | (k, v) :: rest => if String.eqb k column then Some v else getProperty rest column
  end.

(** The value of a decimal digit. *)
Definition digitValue (c : ascii) : option N :=
  let n := N_of_ascii c in
  if ((48 <=? n) && (n <=? 57))%N then Some (n - 48)%N else None.

(** The number written by a string of decimal digits, after [acc]. *)
Fixpoint decimalValue (acc : N) (s : string) : option N :=
  match s with
  | EmptyString => Some acc
  | String c rest =>
      match digitValue c with
      | Some d => decimalValue (10 * acc + d)%N rest
      | None => None
      end
  end.

(** A property name that is an array index: the canonical decimal form (no
    sign, no leading zero) of an integer from 0 to 2^32 - 2. *)
Definition arrayIndex (k : string) : option N :=
  match k with
  | EmptyString => None
  | String c rest =>
      if Ascii.eqb c "0" && Js.truthy rest then None
      else
        match decimalValue 0 k with
        | Some n => if (n <=? 4294967294)%N then Some n else None
        | None => None
        end
  end.

(** Insertion into a list sorted by ascending index. *)
Fixpoint insertByIndex (n : N) (v : JsValue) (l : list (N * JsValue))
    : list (N * JsValue) :=
  match l with
  | [] => [(n, v)]
  | (m, w) :: rest =>
      if (n <? m)%N then (n, v) :: l else (m, w) :: insertByIndex n v rest
  end.

(** The properties named by an array index, in ascending numeric order. *)
Fixpoint indexedProperties (row : ParsedRow) : list (N * JsValue) :=
  match row with
  | [] => []
  | (k, v) :: rest =>
      match arrayIndex k with
      | Some n => insertByIndex n v (indexedProperties rest)
      | None => indexedProperties rest
      end
  end.

(** The values of the other properties, in the order of their creation. *)
Fixpoint namedValues (row : ParsedRow) : list JsValue :=
  match row with
  | [] => []
  | (k, v) :: rest =>
      match arrayIndex k with
      | Some _ => namedValues rest
      | None => v :: namedValues rest
      end
  end.

(** [Object.values(row)]: the own property order of an ordinary object has
    the array-index names first, in ascending numeric order, and then the
    other names in the order of their creation. *)
Definition objectValues (row : ParsedRow) : list JsValue :=
  map snd (indexedProperties row) ++ namedValues row.

(** [typeof v === 'string' ? v.trim() : ''] *)
Definition trimmedText (v : JsValue) : string :=
  match v with
  | JsString s => Js.trim s
  | JsOther => ""
  end.

(** The same expression on [row[column]], where the property may be absent. *)
Definition cellText (row : ParsedRow) (column : string) : string :=
  match getProperty row column with
  | Some v => trimmedText v
  | None => ""
  end.

Record Stats := mkStats {
  st_total : nat;
  st_valid : nat;
  st_invalid : nat;
  st_duplicates : nat;
  st_empty : nat
}.

Record EmailExtractionResult := mkResult {
  emails : list string;
  detectedColumn : option string;
  stats : Stats
}.

(** The options object; a missing field is [None]. *)
Record Options := mkOptions {
  removeDuplicates : option bool;
  removeInvalid : option bool
}.

(** [{}], the default of the [options] parameter. *)
Definition noOptions : Options := mkOptions None None.

(** What the decoder hands to its [complete] callback: [results.data] and
    [results.meta.fields]. *)
Record ParseResults := mkParseResults {
  data : list ParsedRow;
  fields : option (list string)
}.

(** The decoder either calls [error] or calls [complete]. *)
Inductive Decoded :=
| DecodeError (message : string)
| DecodeComplete (results : ParseResults).

Inductive PipelineError :=
| EmptyCsvFile            (* new Error('CSV file is empty'), message in Japanese *)
| EmptyTsvFile            (* new Error('TSV file is empty'), message in Japanese *)
| DecoderFailed (message : string).

Inductive Outcome :=
| Rejected (e : PipelineError)
| Resolved (r : EmailExtractionResult).

(** ** Column detector *)

Definition countEmailLikeValues (column : string) (rows : list ParsedRow) : nat :=
  fold_left
    (fun count row =>
       let value := cellText row column in
       if Js.truthy value && isValidEmail value then S count else count)
    rows 0.

Definition isExactHeader (h : string) : bool := String.eqb h "E-mail 1 - Value".

Definition isEmailValueHeader (h : string) : bool :=
  Js.includes "e-mail" (Js.toLowerCase h) && Js.includes "value" (Js.toLowerCase h).

(** One iteration of the scoring loop on [(bestColumn, maxEmailCount)]. *)
Definition scoreStep (rows : list ParsedRow)
    (acc : option string * nat) (header : string) : option string * nat :=
  let emailCount := countEmailLikeValues header rows in
  if (snd acc <? emailCount)%nat then (Some header, emailCount) else acc.

Definition scoreHeaders (headers : list string) (rows : list ParsedRow)
    : option string * nat :=
  fold_left (scoreStep rows) headers (None, 0).

Definition detectEmailColumn (headers : list string) (rows : list ParsedRow)
    : option string :=
  let exactMatch := List.find isExactHeader headers in
  if Js.truthyOpt exactMatch then exactMatch
  else
    let emailValueMatch := List.find isEmailValueHeader headers in
    if Js.truthyOpt emailValueMatch then emailValueMatch
    else
      let '(bestColumn, maxEmailCount) := scoreHeaders headers rows in
      if Js.truthyOpt bestColumn && (0 <? maxEmailCount)%nat then bestColumn
      else None.

(** ** Extraction helpers *)

Definition extractEmailsFromColumn (column : option string) (rows : list ParsedRow)
    : list string :=
  match column with
  | Some c =>
      if Js.truthy c then
        fold_left
          (fun acc row =>
             let value := cellText row c in
             if Js.truthy value && isValidEmail value
             then acc ++ [Js.toLowerCase value] else acc)
          rows []
      else []
  | None => []
  end.

Definition extractRawValuesFromColumn (column : option string) (rows : list ParsedRow)
    : list string :=
  match column with
  | Some c =>
      if Js.truthy c then
        fold_left
          (fun values row =>
             let value := cellText row c in
             if Js.truthy value then values ++ [value] else values)
          rows []
      else []
  | None => []
  end.

(** One cell of the fallback scan, on [(seen, emails)]. *)
Definition scanCell (acc : gset string * list string) (value : JsValue)
    : gset string * list string :=
  let trimmed := trimmedText value in
  if Js.truthy trimmed && isValidEmail trimmed then
    let lower := Js.toLowerCase trimmed in
    if bool_decide (lower ∈ acc.1) then acc
    else ({[lower]} ∪ acc.1, acc.2 ++ [lower])
  else acc.

Definition scanRow (acc : gset string * list string) (row : ParsedRow)
    : gset string * list string :=
  fold_left scanCell (objectValues row) acc.

Definition extractEmailsFromAllCells (rows : list ParsedRow) : list string :=
  (fold_left scanRow rows (∅, [])).2.

(** ** The statistics loop

    Both pipelines run the same loop over [rawValues]; they differ only in
    how the two flags are read from the options. *)

Record LoopState := mkLoop {
  seen : gset string;
  processed : list string;
  validCount : nat;
  invalidCount : nat;
  duplicatesCount : nat;
  emptyCount : nat
}.

Definition loopInit : LoopState := mkLoop ∅ [] 0 0 0 0.

(** [seen.add(trimmed); processed.push(trimmed); validCount++] *)
Definition keepValue (trimmed : string) (st : LoopState) : LoopState :=
  mkLoop ({[trimmed]} ∪ seen st) (processed st ++ [trimmed])
         (S (validCount st)) (invalidCount st) (duplicatesCount st) (emptyCount st).

Definition countInvalid (st : LoopState) : LoopState :=
  mkLoop (seen st) (processed st) (validCount st)
         (S (invalidCount st)) (duplicatesCount st) (emptyCount st).

Definition countDuplicate (st : LoopState) : LoopState :=
  mkLoop (seen st) (processed st) (validCount st)
         (invalidCount st) (S (duplicatesCount st)) (emptyCount st).

Definition countEmpty (st : LoopState) : LoopState :=
  mkLoop (seen st) (processed st) (validCount st)
         (invalidCount st) (duplicatesCount st) (S (emptyCount st)).

(** The loop body; [rmDup] and [rmInv] are the truth values of the two flag
    expressions of the pipeline at hand. *)
Definition loopStep (rmDup rmInv : bool) (st : LoopState) (rawValue : string)
    : LoopState :=
  let trimmed := Js.toLowerCase (Js.trim rawValue) in
  if negb (Js.truthy trimmed) then countEmpty st
  else if negb (isValidEmail trimmed) then
    let st := countInvalid st in
    if negb rmInv then
      if negb rmDup || negb (bool_decide (trimmed ∈ seen st))
      then keepValue trimmed st
      else countDuplicate st
    else st
  else if rmDup && bool_decide (trimmed ∈ seen st) then countDuplicate st
  else keepValue trimmed st.

Definition runLoop (rmDup rmInv : bool) (rawValues : list string) : LoopState :=
  fold_left (loopStep rmDup rmInv) rawValues loopInit.

(** The part of a [complete] callback after the empty-file check.  In the
    column branch the callback also calls [extractEmailsFromColumn], whose
    result is not read again; in the fallback branch [rawValues] is a copy
    of the scanned emails. *)
Definition extract (rmDup rmInv : bool) (headers : list string)
    (rows : list ParsedRow) : EmailExtractionResult :=
  let detected := detectEmailColumn headers rows in
  let rawValues :=
    if Js.truthyOpt detected then extractRawValuesFromColumn detected rows
    else map (fun e => e) (extractEmailsFromAllCells rows) in
  let totalBeforeProcessing := length rawValues in
  let st := runLoop rmDup rmInv rawValues in
  mkResult (processed st) detected
    (mkStats totalBeforeProcessing (length (processed st))
       (invalidCount st) (duplicatesCount st) (emptyCount st)).

(** [results.meta.fields || []] *)
Definition headersOf (results : ParseResults) : list string :=
  match fields results with
  | Some fs => fs
  | None => []
  end.

(** ** The two pipelines *)

(** [const { removeDuplicates = true, removeInvalid = true } = options] *)
Definition flagOrTrue (o : option bool) : bool :=
  match o with
  | Some b => b
  | None => true
  end.

(** [options] is [None] when the argument is omitted. *)
Definition optionsOrDefault (options : option Options) : Options :=
  match options with
  | Some o => o
  | None => noOptions
  end.

Definition parseCSVAndExtractEmails (file : Decoded) (options : option Options)
    : Outcome :=
  let options := optionsOrDefault options in
  let rmDup := flagOrTrue (removeDuplicates options) in
  let rmInv := flagOrTrue (removeInvalid options) in
  match file with
  | DecodeError m => Rejected (DecoderFailed m)
  | DecodeComplete results =>
      match data results with
      | [] => Rejected EmptyCsvFile
      | _ :: _ => Resolved (extract rmDup rmInv (headersOf results) (data results))
      end
  end.

(** The TSV pipeline reads [options.removeDuplicates] and
    [options.removeInvalid] where they are used, by truthiness. *)
Definition parseTSVAndExtractEmails (file : Decoded) (options : option Options)
    : Outcome :=
  let options := optionsOrDefault options in
  match file with
  | DecodeError m => Rejected (DecoderFailed m)
  | DecodeComplete results =>
      match data results with
      | [] => Rejected EmptyTsvFile
      | _ :: _ =>
          Resolved (extract (Js.truthyFlag (removeDuplicates options))
                            (Js.truthyFlag (removeInvalid options))
                            (headersOf results) (data results))
      end
  end.

(** A table given by its headers and rows, as the decoder delivers it. *)
Definition table (headers : list string) (rows : list ParsedRow) : Decoded :=
  DecodeComplete (mkParseResults rows (Some headers)).

(** An options object with both flags present. *)
Definition bothFlags (rmDup rmInv : bool) : option Options :=
  Some (mkOptions (Some rmDup) (Some rmInv)).

(** A one-column table: one row per cell value. *)
Definition oneColumn (header : string) (cells : list string) : list ParsedRow :=
  map (fun c => [(header, JsString c)]) cells.

(** ** Specification-level notions used to state the properties *)

(** The normal form of a raw value: [rawValue.trim().toLowerCase()]. *)
Definition normalize (rawValue : string) : string :=
  Js.toLowerCase (Js.trim rawValue).

(** Removal of repeats that keeps, for every value, its first occurrence
    and the order of those first occurrences. *)
Fixpoint dedupFirst (l : list string) : list string :=
  match l with
  | [] => []
  | x :: r => x :: filter (fun y => y <> x) (dedupFirst r)
  end.

(** The first code unit, if any, is not white space. *)
Definition headNotSpace (s : string) : bool :=
  match s with
  | EmptyString => true
  | String c _ => negb (Js.isWhiteSpace c)
  end.

(** All cells of the table, row by row, the cells of a row in the order
    [Object.values] lists them. *)
Definition allCells (rows : list ParsedRow) : list JsValue :=
  concat (map objectValues rows).

(** A cell that the fallback scan keeps: its trimmed text is a non-empty
    valid email. *)
Definition isEmailCell (v : JsValue) : bool :=
  Js.truthy (trimmedText v) && isValidEmail (trimmedText v).

(** The score of a header in tier 3, written as a count over the rows. *)
Definition score (rows : list ParsedRow) (header : string) : nat :=
  length (filter (fun row => isValidEmail (cellText row header) = true) rows).

(** [h], at index [i], has the highest score and is the first to reach it. *)
Definition firstBest (headers : list string) (rows : list ParsedRow)
    (i : nat) (h : string) : Prop :=
  headers !! i = Some h /\
  (forall j h', headers !! j = Some h' -> score rows h' <= score rows h) /\
  (forall j h', j < i -> headers !! j = Some h' -> score rows h' < score rows h).

(** What the scoring loop has established after the headers [hs]. *)
Definition scored (rows : list ParsedRow) (hs : list string)
    (acc : option string * nat) : Prop :=
  match acc with
  | (None, mx) => mx = 0 /\ forall h, h ∈ hs -> score rows h = 0
  | (Some h, mx) => mx = score rows h /\ 0 < mx /\ exists i, firstBest hs rows i h
  end.

(** No header is selected by tier 1 or tier 2. *)
Definition reachesTier3 (headers : list string) : Prop :=
  List.find isExactHeader headers = None /\
  List.find isEmailValueHeader headers = None.

(** A raw value that the statistics loop considers for output: non-empty
    after normalisation and, when invalid values are dropped, valid. *)
Definition isCandidate (rmInv : bool) (n : string) : bool :=
  Js.truthy n && (isValidEmail n || negb rmInv).

(** The non-empty trimmed cells of a column, in row order. *)
Definition nonEmptyCells (column : string) (rows : list ParsedRow) : list string :=
  filter (fun v => Js.truthy v = true) (map (fun row => cellText row column) rows).

(** The first occurrences in [l] of the values that are not in [old]. *)
Definition freshFor (old l : list string) : list string :=
  filter (fun y => y ∉ old) (dedupFirst l).

(** The normalised emails that the fallback scan meets, repeats included. *)
Definition scannedEmails (rows : list ParsedRow) : list string :=
  map (fun v => Js.toLowerCase (trimmedText v))
      (filter (fun v => isEmailCell v = true) (allCells rows)).

(** The cells of the table in row-then-column order: row by row, the cells
    of a row in the order of the headers. *)
Definition cellsInColumnOrder (headers : list string) (rows : list ParsedRow)
    : list JsValue :=
  concat (map (fun row => omap (getProperty row) headers) rows).

(** The fallback scan as the specification words it: the trimmed and
    lower-cased valid-email cells in row-then-column order, first
    occurrences only. *)
Definition columnOrderScan (headers : list string) (rows : list ParsedRow)
    : list string :=
  dedupFirst
    (map (fun v => Js.toLowerCase (trimmedText v))
         (filter (fun v => isEmailCell v = true) (cellsInColumnOrder headers rows))).

(** [seen] holds exactly the values pushed so far. *)
Definition synced (seenSet : gset string) (pushed : list string) : Prop :=
  forall x, x ∈ seenSet <-> x ∈ pushed.

(** The candidates among the raw values, normalised, repeats included. *)
Definition candidates (rmInv : bool) (rawValues : list string) : list string :=
  filter (fun n => isCandidate rmInv n = true) (map normalize rawValues).

(** The raw values the loop counts as invalid and as empty. *)
Definition invalidValues (rawValues : list string) : list string :=
  filter (fun v => Js.truthy (normalize v) = true /\ isValidEmail (normalize v) = false)
         rawValues.

Definition emptyValues (rawValues : list string) : list string :=
  filter (fun v => Js.truthy (normalize v) = false) rawValues.

(** What the loop pushes, given the candidates and what was pushed before. *)
Definition pushedBy (rmDup : bool) (old cand : list string) : list string :=
  if rmDup then freshFor old cand else cand.

(** The raw values the pipeline gathers before the statistics loop: the
    non-empty trimmed cells of the detected column, or, when no column is
    detected, the validated and deduplicated emails of the whole table. *)
Definition rawValuesConsidered (headers : list string) (rows : list ParsedRow)
    : list string :=
  match detectEmailColumn headers rows with
  | Some c => nonEmptyCells c rows
  | None => dedupFirst (scannedEmails rows)
  end.

(** Scenario B: one column [Contact] with the cells [bad], empty, [c@d.com]. *)
Definition scenarioB : Decoded :=
  table ["Contact"] (oneColumn "Contact" ["bad"; ""; "c@d.com"]).

(** A table whose only email-bearing column has the empty string as name. *)
Definition unnamedColumnHeaders : list string := [""; "Name"].
Definition unnamedColumnRows : list ParsedRow :=
  [[("", JsString "a@b.com"); ("Name", JsString "Al")]].

(** A table with a column named by an array index, whose best column has
    the empty string as name, so that no column is detected. *)
Definition indexColumnHeaders : list string := [""; "b"; "1"].
Definition indexColumnRows : list ParsedRow :=
  [[("", JsString "x@x.com"); ("b", JsString "-"); ("1", JsString "-")];
   [("", JsString "y@x.com"); ("b", JsString "b@x.com"); ("1", JsString "a@x.com")]].

(** The fallback as the specification words it: when no column is
    detected, the emails are the scan in row-then-column order. *)
Definition fallbackAsSpecified (headers : list string) (rows : list ParsedRow) : Prop :=
  detectEmailColumn headers rows = None ->
  forall options r,
    parseCSVAndExtractEmails (table headers rows) options = Resolved r ->
    emails r = columnOrderScan headers rows.

(** Tier 3 as the specification words it: the first header with the
    highest score is returned, and nothing when every score is zero. *)
Definition tier3AsSpecified (headers : list string) (rows : list ParsedRow) : Prop :=
  reachesTier3 headers ->
  ((forall h, h ∈ headers -> score rows h = 0) ->
   detectEmailColumn headers rows = None) /\
  (forall i h, firstBest headers rows i h -> 0 < score rows h ->
   detectEmailColumn headers rows = Some h).

(** What the pipeline promises when invalid values are kept: [raw] are the
    raw values of the detected column and [dedup] tells whether duplicates
    are removed. *)
Definition keepsInvalid (raw : list string) (dedup : bool) (o : Outcome) : Prop :=
  exists r,
    o = Resolved r /\
    st_invalid (stats r) = length (filter (fun v => isValidEmail v = false) raw) /\
    emails r = (if dedup then dedupFirst (map normalize raw) else map normalize raw) /\
    st_valid (stats r) = length (emails r) /\
    (forall v, v ∈ raw -> isValidEmail v = false -> normalize v ∈ emails r).

(** What the pipeline promises when duplicates are removed: [raw] are the
    raw values of the detected column and [rmInv] tells whether invalid
    values are dropped. *)
Definition deduplicates (raw : list string) (rmInv : bool) (o : Outcome) : Prop :=
  exists r,
    o = Resolved r /\
    emails r = dedupFirst (candidates rmInv raw) /\
    NoDup (emails r) /\
    (forall e, e ∈ emails r -> Js.toLowerCase e = e) /\
    (forall v, v ∈ raw -> isCandidate rmInv (normalize v) = true ->
       normalize v ∈ emails r) /\
    st_duplicates (stats r) + length (emails r) = length (candidates rmInv raw) /\
    (forall pre v mid w post,
       raw = pre ++ v :: mid ++ w :: post ->
       normalize w = normalize v -> isCandidate rmInv (normalize v) = true ->
       let without := candidates rmInv (pre ++ v :: mid ++ post) in
       emails r = dedupFirst without /\
       st_duplicates (stats r) + length (emails r) = S (length without)).

(** ** Notions used by the further properties *)

(** Every code unit of the string is in the class. *)
Fixpoint allOf (cls : ascii -> bool) (s : string) : bool :=
  match s with
  | EmptyString => true
  | String c r => cls c && allOf cls r
  end.

(** The shape [local@domain.rest]: three non-empty parts without white
    space or [@]. *)
Definition emailShaped (u : string) : Prop :=
  exists l d t,
    u = (l ++ "@" ++ d ++ "." ++ t)%string /\
    l <> "" /\ d <> "" /\ t <> "" /\
    allOf Regex.notSpaceNorAt l = true /\
    allOf Regex.notSpaceNorAt d = true /\
    allOf Regex.notSpaceNorAt t = true.

(** The counters of a resolved result add up. *)
Definition balanced (rmDup rmInv : bool) (o : Outcome) : Prop :=
  exists r,
    o = Resolved r /\
    st_total (stats r)
    = st_valid (stats r) + st_duplicates (stats r)
      + (if rmInv then st_invalid (stats r) else 0) /\
    st_invalid (stats r) <= st_total (stats r) /\
    (rmDup = false -> st_duplicates (stats r) = 0).

(** The emails of a resolved result are in normal form, in row order, and
    valid or distinct when the flags ask for it. *)
Definition wellFormed (raw : list string) (rmDup rmInv : bool) (o : Outcome) : Prop :=
  exists r,
    o = Resolved r /\
    (forall e, e ∈ emails r ->
       e <> "" /\ normalize e = e /\ (rmInv = true -> isValidEmail e = true)) /\
    (rmDup = true -> NoDup (emails r)) /\
    emails r `sublist_of` map normalize raw.

(** The flags as each pipeline reads them from its options argument. *)
Definition csvFlags (options : option Options) : bool * bool :=
  (flagOrTrue (removeDuplicates (optionsOrDefault options)),
   flagOrTrue (removeInvalid (optionsOrDefault options))).

Definition tsvFlags (options : option Options) : bool * bool :=
  (Js.truthyFlag (removeDuplicates (optionsOrDefault options)),
   Js.truthyFlag (removeInvalid (optionsOrDefault options))).

(** ** Sent status (src/lib/sentStatus.ts)

    The browser storage and the JSON codec are outside the code: the item
    kept under the key [mail_sent_status] is represented by what
    [JSON.parse] makes of its text, and writing [JSON.stringify(a)] for an
    array of strings [a] leaves an item that parses back to [a].  [setItem]
    is taken to succeed. *)

Inductive StoredItem :=
| NoItem                        (* [getItem] returns [null] *)
| EmptyText                     (* the empty string, which is falsy *)
| Unusable                      (* [JSON.parse] throws, or the value is not an
                                   array of strings, so [map] or
                                   [toLowerCase] throws *)
| StringArray (l : list string).

(** A [Set<string>] whose iteration order is observed through
    [Array.from]: its members in insertion order. *)
Definition setOfList (l : list string) : list string := dedupFirst l.

Definition setHas (x : string) (s : list string) : bool := bool_decide (x ∈ s).

Definition setAdd (x : string) (s : list string) : list string :=
  if setHas x s then s else s ++ [x].

Definition setDelete (x : string) (s : list string) : list string :=
  filter (fun y => y <> x) s.

(** [hasWindow] is [typeof window !== 'undefined']. *)
Definition getSentEmails (hasWindow : bool) (item : StoredItem) : list string :=
  if hasWindow then
    match item with
    | StringArray l => setOfList (map Js.toLowerCase l)
    | NoItem | EmptyText | Unusable => []
    end
  else [].

(** The item after the call. *)
Definition markAsSent (hasWindow : bool) (email : string) (item : StoredItem)
    : StoredItem :=
  if hasWindow then
    StringArray (setAdd (Js.toLowerCase email) (getSentEmails hasWindow item))
  else item.

Definition markAsUnsent (hasWindow : bool) (email : string) (item : StoredItem)
    : StoredItem :=
  if hasWindow then
    StringArray (setDelete (Js.toLowerCase email) (getSentEmails hasWindow item))
  else item.

Definition isSent (hasWindow : bool) (email : string) (item : StoredItem) : bool :=
  setHas (Js.toLowerCase email) (getSentEmails hasWindow item).

(** ** Paging (the page component) *)

(** [toggleSent], as far as the storage goes. *)
Definition toggleSent (hasWindow : bool) (email : string) (item : StoredItem)
    : StoredItem :=
  if isSent hasWindow email item then markAsUnsent hasWindow email item
  else markAsSent hasWindow email item.

Inductive Direction := Next | Prev.

(** [(index + 1) % n] and [(index - 1 + n) % n]; the index is a natural
    number and [n] is positive where the code computes them. *)
Definition stepIndex (direction : Direction) (n index : nat) : nat :=
  match direction with
  | Next => (index + 1) mod n
  | Prev => (index + n - 1) mod n
  end.

(** What a search returns: an index, [null], or the [TypeError] of
    [emails[index].toLowerCase()] on a missing element. *)
Inductive Search :=
| Found (index : nat)
| NotFound
| Thrown.

(** The [while] loop with [fuel = maxIterations - iterations]. *)
Fixpoint searchLoop (emails sent : list string) (direction : Direction)
    (fuel index : nat) : Search :=
  match fuel with
  | 0 => NotFound
  | S fuel' =>
      let index' := stepIndex direction (length emails) index in
      match emails !! index' with
      | None => Thrown
      | Some e =>
          if negb (setHas (Js.toLowerCase e) sent) then Found index'
          else searchLoop emails sent direction fuel' index'
      end
  end.

Definition findNextUnsent (hasWindow : bool) (item : StoredItem)
    (emails : list string) (startIndex : nat) (direction : Direction) : Search :=
  searchLoop emails (getSentEmails hasWindow item) direction (length emails) startIndex.

(** What [goToPage] does to [currentIndex], and whether it shows the toast
    that no unsent email is left; [None] is an exception. *)
Definition goToPage (hasWindow : bool) (item : StoredItem) (emails : list string)
    (showUnsentOnly : bool) (currentIndex : nat) (direction : Direction)
    : option (nat * bool) :=
  match emails with
  | [] => Some (currentIndex, false)
  | _ :: _ =>
      if showUnsentOnly then
        match findNextUnsent hasWindow item emails currentIndex direction with
        | Found nextIndex => Some (nextIndex, false)
        | NotFound => Some (currentIndex, true)
        | Thrown => None
        end
      else Some (stepIndex direction (length emails) currentIndex, false)
  end.

(** The index reached after [k] steps. *)
Definition visited (direction : Direction) (n start k : nat) : nat :=
  Nat.iter k (stepIndex direction n) start.

(** The email at an index is marked as sent. *)
Definition sentAt (hasWindow : bool) (item : StoredItem) (emails : list string)
    (i : nat) : Prop :=
  exists e, emails !! i = Some e /\ isSent hasWindow e item = true.

(** A set without repeats whose members are in lower case. *)
Definition lowerSet (s : list string) : Prop :=
  NoDup s /\ forall x, x ∈ s -> Js.toLowerCase x = x.

(** The index [k] places after (or before) [start], cyclically. *)
Definition offsetIndex (direction : Direction) (n start k : nat) : nat :=
  match direction with
  | Next => (start + k) mod n
  | Prev => (start + n - k) mod n
  end.

(** ** Templates (src/lib/template.ts) *)

Record Template := mkTemplate {
  tpl_subject : string;
  tpl_body : string
}.

(** The [values] argument; a missing field is [None]. *)
Record TemplateValues := mkValues {
  val_email : option string;
  val_name : option string
}.

(** [s.substring(n)] *)
Fixpoint dropChars (n : nat) (s : string) : string :=
  match n, s with
  | 0, _ => s
  | S _, EmptyString => EmptyString
  | S n', String _ r => dropChars n' r
  end.

(** The expansion of a replacement string for a pattern without capture
    groups: [$$] is a dollar sign, [$&] the match, [$`] the text before the
    match and [$'] the text after it; every other dollar sign stands for
    itself. *)
Fixpoint getSubstitution (matched before after replacement : string) : string :=
  match replacement with
  | EmptyString => EmptyString
  | String c rest =>
      if Ascii.eqb c "$" then
        match rest with
        | EmptyString => String "$" EmptyString
        | String d rest' =>
            if Ascii.eqb d "$" then
              String "$" (getSubstitution matched before after rest')
            else if Ascii.eqb d "&" then
              matched +:+ getSubstitution matched before after rest'
            else if Ascii.eqb d "`" then
              before +:+ getSubstitution matched before after rest'
            else if Ascii.eqb d "'" then
              after +:+ getSubstitution matched before after rest'
            else String "$" (getSubstitution matched before after rest)
        end
      else String c (getSubstitution matched before after rest)
  end.

(** [s.replace(/token/g, replacement)] for a literal, non-empty [token],
    scanning from left to right: [before] is the text already passed and
    [skip] the number of code units of the current match still to pass. *)
Fixpoint replaceAllFrom (token replacement before : string) (skip : nat) (s : string)
    : string :=
  match s with
  | EmptyString => EmptyString
  | String c rest =>
      match skip with
      | S skip' =>
          replaceAllFrom token replacement (before +:+ String c EmptyString) skip' rest
      | 0 =>
          if Js.startsWith token s then
            getSubstitution token before (dropChars (String.length token) s) replacement
            +:+ replaceAllFrom token replacement (before +:+ String c EmptyString)
                  (String.length token - 1) rest
          else
            String c (replaceAllFrom token replacement
                        (before +:+ String c EmptyString) 0 rest)
      end
  end.

Definition replaceAll (token replacement s : string) : string :=
  replaceAllFrom token replacement "" 0 s.

(** The literals matched by [/\{\{email\}\}/g] and [/\{\{name\}\}/g]. *)
Definition emailToken : string := "{{email}}".
Definition nameToken : string := "{{name}}".

Definition applyTemplate (template : Template) (values : TemplateValues) : Template :=
  let subject := tpl_subject template in
  let body := tpl_body template in
  let '(subject, body) :=
    if Js.truthyOpt (val_email values) then
      match val_email values with
      | Some email => (replaceAll emailToken email subject,
                       replaceAll emailToken email body)
      | None => (subject, body)
      end
    else (subject, body) in
  let name :=
    if Js.truthyOpt (val_name values) then
      match val_name values with
      | Some n => n
      | None => ""
      end
    else "" in
  mkTemplate (replaceAll nameToken name subject) (replaceAll nameToken name body).

(** A template text seen as literal pieces and placeholders. *)
Inductive Segment :=
| Text (s : string)
| EmailSlot
| NameSlot.

(** The text of the segments with the given strings in the two kinds of
    slots. *)
Fixpoint render (email name : string) (segments : list Segment) : string :=
  match segments with
  | [] => ""
  | Text s :: rest => s +:+ render email name rest
  | EmailSlot :: rest => email +:+ render email name rest
  | NameSlot :: rest => name +:+ render email name rest
  end.

(** The template source: every slot is written as its token. *)
Definition templateSource (segments : list Segment) : string :=
  render emailToken nameToken segments.

Definition notBrace (c : ascii) : bool := negb (Ascii.eqb "{" c).
Definition notDollar (c : ascii) : bool := negb (Ascii.eqb c "$").

(** No literal piece contains an opening brace. *)
Definition plainPieces (segments : list Segment) : Prop :=
  forall s, Text s ∈ segments -> allOf notBrace s = true.

(** [values.name || ''] *)
Definition nameOrEmpty (name : option string) : string :=
  match name with
  | Some n => n
  | None => ""
  end.

(** * Properties *)

Example isValidEmail_ex1 : isValidEmail "  a@b.com " = true.
Proof. reflexivity. Qed.
Example isValidEmail_ex2 : isValidEmail "a@b" = false.
Proof. reflexivity. Qed.
Example isValidEmail_ex3 : isValidEmail "a b@c.d" = false.
Proof. reflexivity. Qed.
Example isValidEmail_ex4 : isValidEmail "a@b..c" = true.
Proof. reflexivity. Qed.
Example isValidEmail_ex5 : isValidEmail "a@@b.c" = false.
Proof. reflexivity. Qed.
Example isValidEmail_ex6 : isValidEmail "" = false.
Proof. reflexivity. Qed.
Example toLowerCase_ex : Js.toLowerCase "A@B.com" = "a@b.com".
Proof. reflexivity. Qed.


(** ** Strings: trimming and lower-casing *)

Module JsFacts.
Import Js.

Ltac by_cases_on_char c :=
  destruct c as [[] [] [] [] [] [] [] []]; reflexivity.

Lemma isWhiteSpace_lowerChar c : isWhiteSpace (lowerChar c) = isWhiteSpace c.
Proof. by_cases_on_char c. Qed.

Lemma lowerChar_idem c : lowerChar (lowerChar c) = lowerChar c.
Proof. by_cases_on_char c. Qed.

Lemma lowerChar_at c : Ascii.eqb (lowerChar c) "@" = Ascii.eqb c "@".
Proof. by_cases_on_char c. Qed.

Lemma lowerChar_dot c : Ascii.eqb (lowerChar c) "." = Ascii.eqb c ".".
Proof. by_cases_on_char c. Qed.

Lemma toLowerCase_idem s : toLowerCase (toLowerCase s) = toLowerCase s.
Proof. induction s as [|c r IH]; simpl; [done|]. by rewrite lowerChar_idem, IH. Qed.

Lemma truthy_toLowerCase s : truthy (toLowerCase s) = truthy s.
Proof. by destruct s. Qed.

Lemma truthy_false s : truthy s = false -> s = "".
Proof. by destruct s. Qed.

Lemma trimStart_toLowerCase s : trimStart (toLowerCase s) = toLowerCase (trimStart s).
Proof.
  induction s as [|c r IH]; simpl; [done|].
  rewrite isWhiteSpace_lowerChar. by destruct (isWhiteSpace c).
Qed.

Lemma trimEnd_toLowerCase s : trimEnd (toLowerCase s) = toLowerCase (trimEnd s).
Proof.
  induction s as [|c r IH]; simpl; [done|].
  rewrite IH, isWhiteSpace_lowerChar.
  destruct (trimEnd r); simpl; [by destruct (isWhiteSpace c)|done].
Qed.

Lemma trim_toLowerCase s : trim (toLowerCase s) = toLowerCase (trim s).
Proof. unfold trim. by rewrite trimStart_toLowerCase, trimEnd_toLowerCase. Qed.

Lemma headNotSpace_trimStart s : headNotSpace (trimStart s) = true.
Proof.
  induction s as [|c r IH]; simpl; [done|].
  destruct (isWhiteSpace c) eqn:E; [done|]. simpl. by rewrite E.
Qed.

Lemma trimStart_fixed s : headNotSpace s = true -> trimStart s = s.
Proof. destruct s as [|c r]; simpl; [done|]. by destruct (isWhiteSpace c). Qed.

Lemma headNotSpace_trimEnd s : headNotSpace s = true -> headNotSpace (trimEnd s) = true.
Proof.
  destruct s as [|c r]; simpl; [done|]. intros Hc.
  destruct (trimEnd r); simpl; [|exact Hc].
  destruct (isWhiteSpace c) eqn:E; simpl; [done|]. by rewrite E.
Qed.

Lemma trimEnd_idem s : trimEnd (trimEnd s) = trimEnd s.
Proof.
  induction s as [|c r IH]; simpl; [done|].
  destruct (trimEnd r) as [|c' r'] eqn:E.
  - destruct (isWhiteSpace c) eqn:Ec; simpl; [done|]. by rewrite Ec.
  - change (trimEnd (String c (String c' r'))) with
      (match trimEnd (String c' r') with
       | EmptyString => if isWhiteSpace c then EmptyString else String c EmptyString
       | String _ _ as r2 => String c r2
       end).
    by rewrite IH.
Qed.

Lemma trim_idem s : trim (trim s) = trim s.
Proof.
  unfold trim.
  rewrite (trimStart_fixed (trimEnd (trimStart s))).
  - apply trimEnd_idem.
  - apply headNotSpace_trimEnd, headNotSpace_trimStart.
Qed.

Lemma trimEnd_noWhiteSpace s : noWhiteSpace s = true -> trimEnd s = s.
Proof.
  induction s as [|c r IH]; simpl; [done|].
  intros [Hc Hr]%andb_true_iff. rewrite (IH Hr).
  destruct r; [|done]. by destruct (isWhiteSpace c).
Qed.

Lemma trim_noWhiteSpace s : noWhiteSpace s = true -> trim s = s.
Proof.
  intros H. unfold trim. rewrite trimStart_fixed.
  - by apply trimEnd_noWhiteSpace.
  - destruct s; simpl in *; [done|]. by apply andb_true_iff in H as [? _].
Qed.

End JsFacts.

(** ** The regular expression *)

Module RegexFacts.
Import Js Regex JsFacts.

Lemma notSpaceNorAt_lowerChar c : notSpaceNorAt (lowerChar c) = notSpaceNorAt c.
Proof. unfold notSpaceNorAt. by rewrite isWhiteSpace_lowerChar, lowerChar_at. Qed.

Section Combinators.
Variable cls : ascii -> bool.
Variable k : string -> bool.

Lemma plusThen_toLowerCase s :
  (forall c, cls (lowerChar c) = cls c) ->
  (forall t, k (toLowerCase t) = k t) ->
  plusThen cls k (toLowerCase s) = plusThen cls k s.
Proof.
  intros Hcls Hk. induction s as [|c r IH]; simpl; [done|].
  by rewrite Hcls, IH, Hk.
Qed.

Lemma plusThen_noWhiteSpace s :
  (forall c, cls c = true -> isWhiteSpace c = false) ->
  (forall t, k t = true -> noWhiteSpace t = true) ->
  plusThen cls k s = true -> noWhiteSpace s = true.
Proof.
  intros Hcls Hk. induction s as [|c r IH]; simpl; [done|].
  intros [Hc Hr]%andb_true_iff. rewrite (Hcls _ Hc). simpl.
  apply orb_true_iff in Hr as [Hr|Hr]; auto.
Qed.

Lemma plusThen_truthy s : plusThen cls k s = true -> truthy s = true.
Proof. by destruct s. Qed.
End Combinators.

Lemma litThen_noWhiteSpace a k s :
  isWhiteSpace a = false ->
  (forall t, k t = true -> noWhiteSpace t = true) ->
  litThen a k s = true -> noWhiteSpace s = true.
Proof.
  intros Ha Hk. destruct s as [|c r]; simpl; [done|].
  intros [Hc Hr]%andb_true_iff.
  apply Ascii.eqb_eq in Hc as ->. rewrite Ha. simpl. auto.
Qed.

Lemma atEnd_toLowerCase t : atEnd (toLowerCase t) = atEnd t.
Proof. by destruct t. Qed.

Lemma atEnd_noWhiteSpace t : atEnd t = true -> noWhiteSpace t = true.
Proof. by destruct t. Qed.

Lemma notSpaceNorAt_notSpace c : notSpaceNorAt c = true -> isWhiteSpace c = false.
Proof. unfold notSpaceNorAt. by destruct (isWhiteSpace c). Qed.

Lemma EMAIL_REGEX_toLowerCase s :
  EMAIL_REGEX_test (toLowerCase s) = EMAIL_REGEX_test s.
Proof.
  unfold EMAIL_REGEX_test.
  apply plusThen_toLowerCase; [apply notSpaceNorAt_lowerChar|].
  intros [|c r]; simpl; [done|]. rewrite lowerChar_at. f_equal.
  apply plusThen_toLowerCase; [apply notSpaceNorAt_lowerChar|].
  intros [|c' r']; simpl; [done|]. rewrite lowerChar_dot. f_equal.
  apply plusThen_toLowerCase; [apply notSpaceNorAt_lowerChar|].
  apply atEnd_toLowerCase.
Qed.

Lemma EMAIL_REGEX_noWhiteSpace s :
  EMAIL_REGEX_test s = true -> noWhiteSpace s = true.
Proof.
  unfold EMAIL_REGEX_test.
  apply plusThen_noWhiteSpace; [apply notSpaceNorAt_notSpace|]. intros t1.
  apply litThen_noWhiteSpace; [done|]. intros t2.
  apply plusThen_noWhiteSpace; [apply notSpaceNorAt_notSpace|]. intros t3.
  apply litThen_noWhiteSpace; [done|]. intros t4.
  apply plusThen_noWhiteSpace; [apply notSpaceNorAt_notSpace|].
  apply atEnd_noWhiteSpace.
Qed.

Lemma EMAIL_REGEX_truthy s : EMAIL_REGEX_test s = true -> truthy s = true.
Proof. apply plusThen_truthy. Qed.

End RegexFacts.

(** ** The validator and the normal form *)

Section Validator.
Import Js JsFacts RegexFacts.

Lemma isValidEmail_trim s : isValidEmail (trim s) = isValidEmail s.
Proof. unfold isValidEmail. by rewrite trim_idem. Qed.

Lemma isValidEmail_toLowerCase s : isValidEmail (toLowerCase s) = isValidEmail s.
Proof. unfold isValidEmail. by rewrite trim_toLowerCase, EMAIL_REGEX_toLowerCase. Qed.

Lemma isValidEmail_normalize s : isValidEmail (normalize s) = isValidEmail s.
Proof. unfold normalize. by rewrite isValidEmail_toLowerCase, isValidEmail_trim. Qed.

Lemma isValidEmail_trim_truthy s : isValidEmail s = true -> truthy (trim s) = true.
Proof. apply EMAIL_REGEX_truthy. Qed.

Lemma isValidEmail_trim_noWhiteSpace s :
  isValidEmail s = true -> noWhiteSpace (trim s) = true.
Proof. apply EMAIL_REGEX_noWhiteSpace. Qed.

Lemma normalize_idem s : normalize (normalize s) = normalize s.
Proof.
  unfold normalize. by rewrite trim_toLowerCase, trim_idem, toLowerCase_idem.
Qed.

Lemma normalize_trim s : normalize (trim s) = toLowerCase (trim s).
Proof. unfold normalize. by rewrite trim_idem. Qed.

Lemma truthy_normalize s : truthy (normalize s) = truthy (trim s).
Proof. apply truthy_toLowerCase. Qed.

End Validator.

(** ** Loops that push or count *)

Section Folds.
Context {A B : Type}.

Lemma fold_left_count (p : A -> bool) (l : list A) (n : nat) :
  fold_left (fun count x => if p x then S count else count) l n
  = n + length (filter (fun x => p x = true) l).
Proof.
  revert n. induction l as [|x l IH]; intros n; simpl; [lia|].
  rewrite IH, filter_cons. destruct (p x) eqn:E.
  - rewrite decide_True by done. simpl. lia.
  - rewrite decide_False by (by intros ?). done.
Qed.

Lemma fold_left_push (p : A -> bool) (f : A -> B) (l : list A) (acc : list B) :
  fold_left (fun acc x => if p x then acc ++ [f x] else acc) l acc
  = acc ++ map f (filter (fun x => p x = true) l).
Proof.
  revert acc. induction l as [|x l IH]; intros acc; simpl.
  - by rewrite app_nil_r.
  - rewrite IH, filter_cons. destruct (p x) eqn:E.
    + rewrite decide_True by done. simpl. by rewrite <- app_assoc.
    + rewrite decide_False by (by intros ?). done.
Qed.
End Folds.

(** ** Cells *)

Section Cells.
Import Js JsFacts.

Lemma trimmedText_trimmed v : trim (trimmedText v) = trimmedText v.
Proof. destruct v; simpl; [apply trim_idem|done]. Qed.

Lemma cellText_trimmed row column : trim (cellText row column) = cellText row column.
Proof.
  unfold cellText. destruct (getProperty row column); [apply trimmedText_trimmed|done].
Qed.

Lemma truthy_valid_trimmed v :
  trim v = v -> truthy v && isValidEmail v = isValidEmail v.
Proof.
  intros Hv. destruct (isValidEmail v) eqn:E; [|apply andb_false_r].
  apply isValidEmail_trim_truthy in E. by rewrite Hv in E; rewrite E.
Qed.

Lemma countEmailLikeValues_score column rows :
  countEmailLikeValues column rows = score rows column.
Proof.
  unfold countEmailLikeValues, score.
  rewrite (fold_left_count
             (fun row => truthy (cellText row column) && isValidEmail (cellText row column))).
  simpl. f_equal. apply list_filter_iff. intros row.
  by rewrite truthy_valid_trimmed by apply cellText_trimmed.
Qed.
End Cells.

(** ** Column detector *)

Section Detector.
Variable rows : list ParsedRow.

Lemma scoreHeaders_last headers h :
  scoreHeaders (headers ++ [h]) rows = scoreStep rows (scoreHeaders headers rows) h.
Proof. unfold scoreHeaders. by rewrite fold_left_app. Qed.

Lemma firstBest_keep hs i h x :
  firstBest hs rows i h -> score rows x <= score rows h ->
  firstBest (hs ++ [x]) rows i h.
Proof.
  intros (Hi & Hmax & Hfirst) Hx. split; [|split].
  - rewrite lookup_app_l; [done|]. by eapply lookup_lt_Some.
  - intros j h' [[_ Hj]|[_ <-]]%lookup_snoc_Some; eauto.
  - intros j h' Hlt [[_ Hj]|[-> <-]]%lookup_snoc_Some; [eauto|].
    apply lookup_lt_Some in Hi. lia.
Qed.

Lemma firstBest_new hs x :
  (forall h, h ∈ hs -> score rows h < score rows x) ->
  firstBest (hs ++ [x]) rows (length hs) x.
Proof.
  intros Hlt. split; [|split].
  - by apply list_lookup_middle.
  - intros j h' [[_ Hj]|[_ <-]]%lookup_snoc_Some; [|lia].
    apply Nat.lt_le_incl, Hlt. by eapply list_elem_of_lookup_2.
  - intros j h' Hbefore [[_ Hj]|[-> <-]]%lookup_snoc_Some.
    + apply Hlt. by eapply list_elem_of_lookup_2.
    + lia.
Qed.

Lemma scoreHeaders_scored headers : scored rows headers (scoreHeaders headers rows).
Proof.
  induction headers as [|x hs IH] using rev_ind.
  - split; [done|]. by intros h ?%not_elem_of_nil.
  - rewrite scoreHeaders_last. unfold scoreStep.
    rewrite countEmailLikeValues_score.
    destruct (scoreHeaders hs rows) as [[h|] mx]; simpl in *.
    + destruct IH as (-> & Hpos & i & Hbest).
      destruct (Nat.ltb_spec (score rows h) (score rows x)) as [Hlt|Hge]; simpl.
      * split; [done|]. split; [lia|]. exists (length hs).
        apply firstBest_new. intros h' [j Hj]%list_elem_of_lookup_1.
        destruct Hbest as (_ & Hmax & _). specialize (Hmax _ _ Hj). lia.
      * split; [done|]. split; [done|]. exists i. by apply firstBest_keep.
    + destruct IH as (-> & Hzero).
      destruct (Nat.ltb_spec 0 (score rows x)) as [Hlt|Hge]; simpl.
      * split; [done|]. split; [done|]. exists (length hs).
        apply firstBest_new. intros h' Hh'. rewrite (Hzero _ Hh'). done.
      * split; [done|]. intros h [Hh| ->%list_elem_of_singleton]%elem_of_app; [auto|lia].
Qed.

(** Tier 1 and tier 2 return a header only when it is truthy, and the
    headers they look for are never empty. *)
Lemma find_exact_truthy headers h :
  List.find isExactHeader headers = Some h -> h = "E-mail 1 - Value".
Proof. intros [_ H]%find_some. by apply String.eqb_eq in H. Qed.

Lemma find_emailValue_truthy headers h :
  List.find isEmailValueHeader headers = Some h -> Js.truthy h = true.
Proof.
  intros [_ H]%find_some. destruct h; [|done]. by vm_compute in H.
Qed.

Lemma detectEmailColumn_truthy headers c :
  detectEmailColumn headers rows = Some c -> Js.truthy c = true.
Proof.
  unfold detectEmailColumn.
  destruct (List.find isExactHeader headers) as [h|] eqn:E1; simpl.
  - apply find_exact_truthy in E1 as ->. simpl. by intros [= <-].
  - destruct (List.find isEmailValueHeader headers) as [h|] eqn:E2; simpl.
    + pose proof (find_emailValue_truthy _ _ E2) as Hh. rewrite Hh. by intros [= <-].
    + destruct (scoreHeaders headers rows) as [[h|] mx]; simpl; [|done].
      destruct (Js.truthy h) eqn:Eh; simpl; [|done].
      destruct (0 <? mx)%nat; [|done]. by intros [= <-].
Qed.

Lemma detectEmailColumn_truthyOpt headers :
  Js.truthyOpt (detectEmailColumn headers rows)
  = match detectEmailColumn headers rows with Some _ => true | None => false end.
Proof.
  destruct (detectEmailColumn headers rows) as [c|] eqn:E; [|done].
  simpl. by eapply detectEmailColumn_truthy.
Qed.

Lemma detectEmailColumn_tier3 headers :
  reachesTier3 headers ->
  (forall h, h ∈ headers -> score rows h = 0) /\ detectEmailColumn headers rows = None
  \/ exists i h, firstBest headers rows i h /\ 0 < score rows h /\
       detectEmailColumn headers rows = (if Js.truthy h then Some h else None).
Proof.
  intros [E1 E2]. unfold detectEmailColumn. rewrite E1, E2. simpl.
  pose proof (scoreHeaders_scored headers) as Hs.
  destruct (scoreHeaders headers rows) as [[h|] mx]; simpl in *.
  - destruct Hs as (-> & Hpos & i & Hbest). right. exists i, h.
    split; [done|]. split; [done|].
    destruct (Nat.ltb_spec 0 (score rows h)); [|lia].
    by destruct (Js.truthy h).
  - destruct Hs as (-> & Hzero). by left.
Qed.

End Detector.

(** ** First-occurrence deduplication *)

Section Dedup.

Lemma freshFor_nil_l l : freshFor [] l = dedupFirst l.
Proof.
  unfold freshFor. induction (dedupFirst l) as [|x r IH]; [done|].
  rewrite filter_cons_True by apply not_elem_of_nil. by rewrite IH.
Qed.

Lemma freshFor_nil_r old : freshFor old [] = [].
Proof. done. Qed.

Lemma freshFor_seen old x l : x ∈ old -> freshFor old (x :: l) = freshFor old l.
Proof.
  intros Hx. unfold freshFor. simpl.
  rewrite filter_cons_False by (by intros ?).
  rewrite list_filter_filter. apply list_filter_iff.
  intros y. split; [by intros [? _]|]. intros Hy. split; [done|]. by intros ->.
Qed.

Lemma freshFor_new old x l :
  x ∉ old -> freshFor old (x :: l) = x :: freshFor (old ++ [x]) l.
Proof.
  intros Hx. unfold freshFor. simpl.
  rewrite filter_cons_True by done. f_equal.
  rewrite list_filter_filter. apply list_filter_iff.
  intros y. rewrite elem_of_app, list_elem_of_singleton. tauto.
Qed.

Lemma dedupFirst_elem_of l x : x ∈ dedupFirst l <-> x ∈ l.
Proof.
  induction l as [|y r IH]; simpl; [done|].
  rewrite !elem_of_cons, list_elem_of_filter, IH.
  destruct (decide (x = y)); tauto.
Qed.

Lemma dedupFirst_NoDup l : NoDup (dedupFirst l).
Proof.
  induction l as [|y r IH]; simpl; [constructor|].
  constructor; [|by apply NoDup_filter].
  rewrite list_elem_of_filter. by intros [? _].
Qed.

Lemma dedupFirst_fixed l : NoDup l -> dedupFirst l = l.
Proof.
  induction 1 as [|x l Hx _ IH]; simpl; [done|]. rewrite IH. f_equal.
  clear IH. induction l as [|y r IHr]; [done|].
  apply not_elem_of_cons in Hx as [Hne Hx].
  rewrite filter_cons_True by done. by rewrite IHr.
Qed.

Lemma freshFor_fixed old l :
  NoDup l -> (forall x, x ∈ l -> x ∉ old) -> freshFor old l = l.
Proof.
  intros Hl Hd. unfold freshFor. rewrite dedupFirst_fixed by done.
  clear Hl. induction l as [|y r IH]; [done|].
  rewrite filter_cons_True by (apply Hd; left).
  rewrite IH; [done|]. intros x Hx. apply Hd. by right.
Qed.

Lemma freshFor_ext old old' l :
  (forall y, y ∈ old <-> y ∈ old') -> freshFor old l = freshFor old' l.
Proof.
  intros H. unfold freshFor. apply list_filter_iff. intros y. by rewrite (H y).
Qed.

Lemma freshFor_app old l1 l2 :
  freshFor old (l1 ++ l2) = freshFor old l1 ++ freshFor (old ++ l1) l2.
Proof.
  revert old. induction l1 as [|x l1 IH]; intros old; simpl.
  - by rewrite app_nil_r.
  - destruct (decide (x ∈ old)) as [Hin|Hnin].
    + rewrite !freshFor_seen, IH by done. f_equal.
      apply freshFor_ext. intros y. rewrite !elem_of_app, elem_of_cons.
      split; [tauto|]. intros [?|[->|?]]; tauto.
    + rewrite !freshFor_new, IH by done. simpl. by rewrite <- app_assoc.
Qed.

Lemma dedupFirst_app l1 l2 : dedupFirst (l1 ++ l2) = dedupFirst l1 ++ freshFor l1 l2.
Proof. rewrite <- !freshFor_nil_l. apply freshFor_app. Qed.

(** A later occurrence of a value leaves the result as it is. *)
Lemma dedupFirst_later l1 x l2 l3 :
  dedupFirst (l1 ++ x :: l2 ++ x :: l3) = dedupFirst (l1 ++ x :: l2 ++ l3).
Proof.
  change (l1 ++ x :: l2 ++ x :: l3) with (l1 ++ (x :: l2) ++ x :: l3).
  change (l1 ++ x :: l2 ++ l3) with (l1 ++ (x :: l2) ++ l3).
  rewrite !(app_assoc l1 (x :: l2)), !(dedupFirst_app (l1 ++ x :: l2)). f_equal. apply freshFor_seen.
  apply elem_of_app. right. by left.
Qed.

Lemma freshFor_length old l : length (freshFor old l) <= length l.
Proof.
  unfold freshFor. etrans; [apply length_filter|].
  induction l as [|y r IH]; simpl; [done|].
  pose proof (length_filter (fun z => z <> y) (dedupFirst r)). lia.
Qed.

End Dedup.

(** ** Raw values of a column *)

Section Column.
Import Js JsFacts.

Lemma map_filter_comm {A B} (f : A -> B) (p : B -> bool) (l : list A) :
  map f (filter (fun x => p (f x) = true) l) = filter (fun y => p y = true) (map f l).
Proof.
  induction l as [|x l IH]; [done|]. simpl.
  rewrite !filter_cons. destruct (p (f x)) eqn:E.
  - rewrite !decide_True by done. simpl. by rewrite IH.
  - rewrite !decide_False by (simpl; congruence). done.
Qed.

Lemma extractRawValuesFromColumn_spec c rows :
  truthy c = true ->
  extractRawValuesFromColumn (Some c) rows = nonEmptyCells c rows.
Proof.
  intros Hc. unfold extractRawValuesFromColumn, nonEmptyCells. rewrite Hc.
  rewrite (fold_left_push (fun row => truthy (cellText row c))
                          (fun row => cellText row c)).
  simpl. apply (map_filter_comm (fun row => cellText row c) truthy).
Qed.

Lemma nonEmptyCells_trimmed c rows v :
  v ∈ nonEmptyCells c rows -> trim v = v /\ truthy v = true.
Proof.
  unfold nonEmptyCells. intros [Hv Hin]%list_elem_of_filter. split; [|done].
  apply list_elem_of_In, in_map_iff in Hin as (row & <- & _).
  apply cellText_trimmed.
Qed.

Lemma trimmed_normalize v : trim v = v -> normalize v = toLowerCase v.
Proof. intros H. unfold normalize. by rewrite H. Qed.

End Column.

(** ** The fallback scan *)

Section Fallback.
Import Js JsFacts.

Lemma synced_empty : synced ∅ [].
Proof. intros x. set_solver. Qed.

Lemma synced_push S P x : synced S P -> synced ({[x]} ∪ S) (P ++ [x]).
Proof.
  intros H y.
  rewrite elem_of_app, list_elem_of_singleton, elem_of_union, elem_of_singleton, (H y).
  tauto.
Qed.

Lemma scanRows_flat rows acc :
  fold_left scanRow rows acc = fold_left scanCell (allCells rows) acc.
Proof.
  revert acc. induction rows as [|row rows IH]; intros acc; [done|].
  unfold allCells. simpl. rewrite fold_left_app. apply IH.
Qed.

Lemma scanCell_unfold S P v :
  scanCell (S, P) v
  = if isEmailCell v then
      if bool_decide (toLowerCase (trimmedText v) ∈ S) then (S, P)
      else ({[toLowerCase (trimmedText v)]} ∪ S, P ++ [toLowerCase (trimmedText v)])
    else (S, P).
Proof. done. Qed.

Lemma scanCells_spec cells S P :
  synced S P ->
  let r := fold_left scanCell cells (S, P) in
  synced r.1 r.2 /\
  r.2 = P ++ freshFor P (map (fun v => toLowerCase (trimmedText v))
                             (filter (fun v => isEmailCell v = true) cells)).
Proof.
  revert S P. induction cells as [|v cells IH]; intros S P Hs; simpl.
  - split; [done|]. by rewrite freshFor_nil_r, app_nil_r.
  - rewrite filter_cons, scanCell_unfold.
    destruct (isEmailCell v) eqn:Ev.
    + rewrite decide_True by done. simpl.
      destruct (bool_decide_reflect (toLowerCase (trimmedText v) ∈ S)) as [Hin|Hnin].
      * rewrite freshFor_seen by (by apply Hs). by apply IH.
      * rewrite freshFor_new by (by rewrite <- (Hs _)).
        destruct (IH _ _ (synced_push _ _ (toLowerCase (trimmedText v)) Hs)) as [H1 H2].
        split; [done|]. rewrite H2. by rewrite <- app_assoc.
    + rewrite decide_False by (simpl; congruence). by apply IH.
Qed.

Lemma extractEmailsFromAllCells_spec rows :
  extractEmailsFromAllCells rows = dedupFirst (scannedEmails rows).
Proof.
  unfold extractEmailsFromAllCells. rewrite scanRows_flat.
  destruct (scanCells_spec (allCells rows) ∅ [] synced_empty) as [_ ->].
  simpl. apply freshFor_nil_l.
Qed.

(** Every scanned email is a valid email in normal form. *)
Lemma scannedEmails_normal rows e :
  e ∈ scannedEmails rows ->
  isValidEmail e = true /\ normalize e = e /\ truthy e = true.
Proof.
  unfold scannedEmails.
  intros (v & <- & [Hv _]%list_elem_of_In%list_elem_of_filter)%list_elem_of_In%in_map_iff.
  unfold isEmailCell in Hv. apply andb_true_iff in Hv as [Ht Hvalid].
  split; [|split].
  - by rewrite isValidEmail_toLowerCase.
  - unfold normalize.
    by rewrite trim_toLowerCase, trimmedText_trimmed, toLowerCase_idem.
  - by rewrite truthy_toLowerCase.
Qed.

Lemma extractEmailsFromAllCells_normal rows e :
  e ∈ extractEmailsFromAllCells rows ->
  isValidEmail e = true /\ normalize e = e /\ truthy e = true.
Proof.
  rewrite extractEmailsFromAllCells_spec, dedupFirst_elem_of.
  apply scannedEmails_normal.
Qed.

Lemma extractEmailsFromAllCells_NoDup rows : NoDup (extractEmailsFromAllCells rows).
Proof. rewrite extractEmailsFromAllCells_spec. apply dedupFirst_NoDup. Qed.

End Fallback.

(** ** The statistics loop *)

Section Loop.
Import Js JsFacts.

Lemma candidates_cons rmInv v raw :
  candidates rmInv (v :: raw)
  = if isCandidate rmInv (normalize v)
    then normalize v :: candidates rmInv raw else candidates rmInv raw.
Proof.
  unfold candidates. simpl. rewrite filter_cons.
  destruct (isCandidate rmInv (normalize v)) eqn:E.
  - by rewrite decide_True.
  - by rewrite decide_False by (simpl; congruence).
Qed.

Lemma candidates_app rmInv raw1 raw2 :
  candidates rmInv (raw1 ++ raw2) = candidates rmInv raw1 ++ candidates rmInv raw2.
Proof. unfold candidates. by rewrite map_app, filter_app. Qed.

Lemma invalidValues_cons v raw :
  invalidValues (v :: raw)
  = if truthy (normalize v) && negb (isValidEmail (normalize v))
    then v :: invalidValues raw else invalidValues raw.
Proof.
  unfold invalidValues. rewrite filter_cons.
  destruct (truthy (normalize v)), (isValidEmail (normalize v)); simpl;
    first [done | case_decide; naive_solver].
Qed.

Lemma emptyValues_cons v raw :
  emptyValues (v :: raw)
  = if truthy (normalize v) then emptyValues raw else v :: emptyValues raw.
Proof.
  unfold emptyValues. rewrite filter_cons.
  destruct (truthy (normalize v)); first [done | case_decide; naive_solver].
Qed.

Lemma pushedBy_nil rmDup old : pushedBy rmDup old [] = [].
Proof. by destruct rmDup. Qed.

Lemma loopStep_unfold rmDup rmInv st v :
  loopStep rmDup rmInv st v
  = if negb (truthy (normalize v)) then countEmpty st
    else if negb (isValidEmail (normalize v)) then
      if negb rmInv then
        if negb rmDup || negb (bool_decide (normalize v ∈ seen st))
        then keepValue (normalize v) (countInvalid st)
        else countDuplicate (countInvalid st)
      else countInvalid st
    else if rmDup && bool_decide (normalize v ∈ seen st) then countDuplicate st
    else keepValue (normalize v) st.
Proof. done. Qed.

Lemma loop_invariant rmDup rmInv raw : forall st,
  synced (seen st) (processed st) ->
  let st' := fold_left (loopStep rmDup rmInv) raw st in
  let pushed := pushedBy rmDup (processed st) (candidates rmInv raw) in
  synced (seen st') (processed st') /\
  processed st' = processed st ++ pushed /\
  validCount st' = validCount st + length pushed /\
  invalidCount st' = invalidCount st + length (invalidValues raw) /\
  emptyCount st' = emptyCount st + length (emptyValues raw) /\
  duplicatesCount st' + length pushed
    = duplicatesCount st + length (candidates rmInv raw).
Proof.
  induction raw as [|v raw IH]; intros st Hs; simpl.
  - rewrite pushedBy_nil, app_nil_r. simpl. split; [exact Hs|]. repeat split; first [done | lia].
  - rewrite candidates_cons, invalidValues_cons, emptyValues_cons.
    rewrite loopStep_unfold. unfold isCandidate.
    destruct (truthy (normalize v)) eqn:Et; simpl.
    2:{ destruct (IH (countEmpty st) Hs) as (H1 & H2 & H3 & H4 & H5 & H6).
        simpl in *. split; [exact H1|]. repeat split; first [done | lia]. }
    destruct (isValidEmail (normalize v)) eqn:Ev; simpl.
    + (* a valid value *)
      destruct rmDup; simpl.
      * destruct (bool_decide_reflect (normalize v ∈ seen st)) as [Hin|Hnin].
        -- destruct (IH (countDuplicate st) Hs) as (H1 & H2 & H3 & H4 & H5 & H6).
           simpl in *. rewrite freshFor_seen by (by apply Hs).
           split; [exact H1|]. repeat split; first [done | lia].
        -- destruct (IH (keepValue (normalize v) st)
                        (synced_push _ _ (normalize v) Hs))
             as (H1 & H2 & H3 & H4 & H5 & H6).
           simpl in *. rewrite freshFor_new by (by rewrite <- (Hs _)).
           split; [exact H1|]. rewrite H2, <- app_assoc. simpl.
           repeat split; first [done | lia].
      * destruct (IH (keepValue (normalize v) st)
                     (synced_push _ _ (normalize v) Hs))
          as (H1 & H2 & H3 & H4 & H5 & H6).
        simpl in *. split; [exact H1|]. rewrite H2, <- app_assoc. simpl.
        repeat split; first [done | lia].
    + (* an invalid value *)
      destruct rmInv; simpl.
      * destruct (IH (countInvalid st) Hs) as (H1 & H2 & H3 & H4 & H5 & H6).
        simpl in *. split; [exact H1|]. repeat split; first [done | lia].
      * destruct rmDup; simpl.
        -- destruct (bool_decide_reflect (normalize v ∈ seen st)) as [Hin|Hnin]; simpl.
           ++ destruct (IH (countDuplicate (countInvalid st)) Hs)
                as (H1 & H2 & H3 & H4 & H5 & H6).
              simpl in *. rewrite freshFor_seen by (by apply Hs).
              split; [exact H1|]. repeat split; first [done | lia].
           ++ destruct (IH (keepValue (normalize v) (countInvalid st))
                           (synced_push _ _ (normalize v) Hs))
                as (H1 & H2 & H3 & H4 & H5 & H6).
              simpl in *. rewrite freshFor_new by (by rewrite <- (Hs _)).
              split; [exact H1|]. rewrite H2, <- app_assoc. simpl.
              repeat split; first [done | lia].
        -- destruct (IH (keepValue (normalize v) (countInvalid st))
                        (synced_push _ _ (normalize v) Hs))
             as (H1 & H2 & H3 & H4 & H5 & H6).
           simpl in *. split; [exact H1|]. rewrite H2, <- app_assoc. simpl.
           repeat split; first [done | lia].
Qed.

Lemma runLoop_spec rmDup rmInv raw :
  let st := runLoop rmDup rmInv raw in
  let pushed := pushedBy rmDup [] (candidates rmInv raw) in
  processed st = pushed /\
  validCount st = length pushed /\
  invalidCount st = length (invalidValues raw) /\
  emptyCount st = length (emptyValues raw) /\
  duplicatesCount st + length pushed = length (candidates rmInv raw).
Proof.
  destruct (loop_invariant rmDup rmInv raw loopInit synced_empty) as (_ & H2 & H3 & H4 & H5 & H6).
  simpl in *. by repeat split.
Qed.

End Loop.

(** ** Filters that keep everything or nothing *)

Section Filters.
Context {A : Type} (P Q : A -> Prop).
Context `{!forall x, Decision (P x)} `{!forall x, Decision (Q x)}.

Lemma filter_all (l : list A) : (forall x, x ∈ l -> P x) -> filter P l = l.
Proof.
  induction l as [|y r IH]; intros Hl; [done|].
  rewrite filter_cons_True by (apply Hl; left).
  rewrite IH; [done|]. intros x Hx. apply Hl. by right.
Qed.

Lemma filter_none (l : list A) : (forall x, x ∈ l -> ~ P x) -> filter P l = [].
Proof.
  induction l as [|y r IH]; intros Hl; [done|].
  rewrite filter_cons_False by (apply Hl; left).
  apply IH. intros x Hx. apply Hl. by right.
Qed.

Lemma filter_agree (l : list A) : (forall x, x ∈ l -> P x <-> Q x) -> filter P l = filter Q l.
Proof.
  induction l as [|y r IH]; intros Hl; [done|].
  rewrite !filter_cons, IH by (intros x Hx; apply Hl; by right).
  destruct (decide (P y)) as [Hp|Hp], (decide (Q y)) as [Hq|Hq]; try done;
    exfalso; apply (Hl y) in Hp || apply (Hl y) in Hq; solve [done | left].
Qed.
End Filters.

(** ** The pipelines *)

Section Pipeline.
Import Js JsFacts.

Lemma rawValues_of_extract headers rows :
  (if truthyOpt (detectEmailColumn headers rows)
   then extractRawValuesFromColumn (detectEmailColumn headers rows) rows
   else map (fun e => e) (extractEmailsFromAllCells rows))
  = rawValuesConsidered headers rows.
Proof.
  unfold rawValuesConsidered. rewrite detectEmailColumn_truthyOpt.
  destruct (detectEmailColumn headers rows) as [c|] eqn:E.
  - apply extractRawValuesFromColumn_spec. by eapply detectEmailColumn_truthy.
  - rewrite map_id. apply extractEmailsFromAllCells_spec.
Qed.

Lemma extract_spec rmDup rmInv headers rows :
  let raw := rawValuesConsidered headers rows in
  let pushed := pushedBy rmDup [] (candidates rmInv raw) in
  extract rmDup rmInv headers rows
  = mkResult pushed (detectEmailColumn headers rows)
      (mkStats (length raw) (length pushed) (length (invalidValues raw))
         (length (candidates rmInv raw) - length pushed)
         (length (emptyValues raw))).
Proof.
  unfold extract. rewrite rawValues_of_extract.
  destruct (runLoop_spec rmDup rmInv (rawValuesConsidered headers rows))
    as (H1 & H2 & H3 & H4 & H5).
  simpl. rewrite H1, H3, H4. do 2 f_equal. lia.
Qed.

(** Raw values are never empty after normalisation. *)
Lemma rawValues_truthy headers rows v :
  v ∈ rawValuesConsidered headers rows -> truthy (normalize v) = true.
Proof.
  unfold rawValuesConsidered.
  destruct (detectEmailColumn headers rows) as [c|].
  - intros [Ht Hv]%nonEmptyCells_trimmed. by rewrite truthy_normalize, Ht.
  - rewrite dedupFirst_elem_of. intros (_ & -> & Ht)%scannedEmails_normal. done.
Qed.

Lemma emptyValues_rawValues headers rows :
  emptyValues (rawValuesConsidered headers rows) = [].
Proof.
  apply filter_none. intros v Hv. rewrite (rawValues_truthy _ _ _ Hv). done.
Qed.

Lemma invalidValues_rawValues headers rows :
  invalidValues (rawValuesConsidered headers rows)
  = filter (fun v => isValidEmail v = false) (rawValuesConsidered headers rows).
Proof.
  apply filter_agree. intros v Hv.
  rewrite (rawValues_truthy _ _ _ Hv), isValidEmail_normalize. tauto.
Qed.

Lemma candidates_keep_all raw :
  (forall v, v ∈ raw -> truthy (normalize v) = true) ->
  candidates false raw = map normalize raw.
Proof.
  intros H. apply filter_all.
  intros n (v & <- & Hv%list_elem_of_In)%list_elem_of_In%in_map_iff.
  unfold isCandidate. rewrite (H _ Hv). by rewrite orb_true_r.
Qed.

Lemma candidates_lowercase rmInv raw e :
  e ∈ candidates rmInv raw -> toLowerCase e = e.
Proof.
  intros [_ (v & <- & _)%list_elem_of_In%in_map_iff]%list_elem_of_filter.
  apply toLowerCase_idem.
Qed.

Lemma pushedBy_elem_of rmDup cand x : x ∈ pushedBy rmDup [] cand <-> x ∈ cand.
Proof.
  destruct rmDup; simpl; [|done]. by rewrite freshFor_nil_l, dedupFirst_elem_of.
Qed.

(** In fallback mode the loop passes the scanned emails through. *)
Lemma fallback_passes_through rmDup rmInv rows :
  let found := dedupFirst (scannedEmails rows) in
  candidates rmInv found = found /\
  pushedBy rmDup [] found = found /\
  invalidValues found = [].
Proof.
  simpl.
  assert (Hn : forall e, e ∈ dedupFirst (scannedEmails rows) ->
               isValidEmail e = true /\ normalize e = e /\ truthy e = true).
  { intros e He. rewrite dedupFirst_elem_of in He. by apply (scannedEmails_normal rows). }
  assert (Hmap : map normalize (dedupFirst (scannedEmails rows))
                 = dedupFirst (scannedEmails rows)).
  { rewrite <- (map_id (dedupFirst (scannedEmails rows))) at 2.
    apply map_ext_in. intros e He%list_elem_of_In. by apply Hn. }
  split; [|split].
  - unfold candidates. rewrite Hmap. apply filter_all.
    intros e (Hv & _ & Ht)%Hn. unfold isCandidate. by rewrite Hv, Ht.
  - destruct rmDup; simpl; [|done].
    rewrite freshFor_nil_l. apply dedupFirst_fixed, dedupFirst_NoDup.
  - apply filter_none. intros e (Hv & He & _)%Hn [_ Hinv].
    rewrite He in Hinv. congruence.
Qed.

Lemma extract_fallback rmDup rmInv headers rows :
  detectEmailColumn headers rows = None ->
  let found := dedupFirst (scannedEmails rows) in
  extract rmDup rmInv headers rows
  = mkResult found None (mkStats (length found) (length found) 0 0 0).
Proof.
  intros Hd. simpl. rewrite extract_spec, emptyValues_rawValues.
  unfold rawValuesConsidered. rewrite Hd.
  destruct (fallback_passes_through rmDup rmInv rows) as (-> & -> & ->).
  simpl. by rewrite Nat.sub_diag.
Qed.

Lemma csv_resolves results options :
  data results <> [] ->
  parseCSVAndExtractEmails (DecodeComplete results) options
  = Resolved (extract (flagOrTrue (removeDuplicates (optionsOrDefault options)))
                      (flagOrTrue (removeInvalid (optionsOrDefault options)))
                      (headersOf results) (data results)).
Proof. unfold parseCSVAndExtractEmails. by destruct (data results). Qed.

Lemma tsv_resolves results options :
  data results <> [] ->
  parseTSVAndExtractEmails (DecodeComplete results) options
  = Resolved (extract (truthyFlag (removeDuplicates (optionsOrDefault options)))
                      (truthyFlag (removeInvalid (optionsOrDefault options)))
                      (headersOf results) (data results)).
Proof. unfold parseTSVAndExtractEmails. by destruct (data results). Qed.

(** A resolved promise comes from the [complete] callback on a table with
    at least one row, through [extract]. *)
Lemma resolved_inv file options r :
  parseCSVAndExtractEmails file options = Resolved r \/
  parseTSVAndExtractEmails file options = Resolved r ->
  exists results rmDup rmInv,
    file = DecodeComplete results /\ data results <> [] /\
    r = extract rmDup rmInv (headersOf results) (data results).
Proof.
  unfold parseCSVAndExtractEmails, parseTSVAndExtractEmails.
  destruct file as [m|results]; [by intros [|]|].
  destruct (data results) as [|row rows] eqn:E; [by intros [|]|].
  intros [[= <-]|[= <-]]; eexists results, _, _; rewrite E; done.
Qed.

End Pipeline.

(** * The claims *)

(** ** C1: scenario B *)

(** C1, as stated: on scenario B with the options omitted the CSV pipeline
    should return the stats total 2, valid 1, invalid 1, duplicates 0 and
    empty 1.  The code does not: its result differs from this one. *)
Lemma C1_scenarioB_as_stated_fails :
  parseCSVAndExtractEmails scenarioB None
  <> Resolved (mkResult ["c@d.com"] (Some "Contact") (mkStats 2 1 1 0 1)).
Proof. vm_compute. discriminate. Qed.

(** C1: what the code does on scenario B with the options omitted.  The CSV
    pipeline detects the column [Contact] and returns the single email
    [c@d.com] with the stats total 2, valid 1, invalid 1, duplicates 0 and
    empty 0, where the claim has empty 1: [extractRawValuesFromColumn] drops
    the empty cell, so the loop, which has the counter and the test for an
    empty value, never sees it. *)
Theorem C1_scenarioB :
  parseCSVAndExtractEmails scenarioB None
  = Resolved (mkResult ["c@d.com"] (Some "Contact") (mkStats 2 1 1 0 0)).
Proof. vm_compute. reflexivity. Qed.

(** ** C2: omitted options *)

Lemma csv_omitted_options file :
  parseCSVAndExtractEmails file None
  = parseCSVAndExtractEmails file (bothFlags true true).
Proof. reflexivity. Qed.

Lemma tsv_omitted_options file :
  parseTSVAndExtractEmails file None
  = parseTSVAndExtractEmails file (bothFlags false false).
Proof. reflexivity. Qed.

(** C2: the TSV pipeline with the options omitted does not behave as with
    both flags true.  On scenario B it keeps the invalid value [bad], which
    the call with both flags true drops. *)
Theorem C2_tsv_omitted_options_keep_invalid :
  parseTSVAndExtractEmails scenarioB None
  = Resolved (mkResult ["bad"; "c@d.com"] (Some "Contact") (mkStats 2 2 1 0 0))
  /\ parseTSVAndExtractEmails scenarioB (bothFlags true true)
     = Resolved (mkResult ["c@d.com"] (Some "Contact") (mkStats 2 1 1 0 0)).
Proof. split; vm_compute; reflexivity. Qed.

(** ** C3: tier 3 of the detector *)

Lemma firstBest_unique headers rows i h i' h' :
  firstBest headers rows i h -> firstBest headers rows i' h' -> i = i' /\ h = h'.
Proof.
  intros (Hi & Hmax & Hfirst) (Hi' & Hmax' & Hfirst').
  assert (i = i') as <-.
  { destruct (Nat.lt_trichotomy i i') as [Hlt|[Heq|Hgt]]; [|done|].
    - specialize (Hfirst' _ _ Hlt Hi). specialize (Hmax _ _ Hi'). lia.
    - specialize (Hfirst _ _ Hgt Hi'). specialize (Hmax' _ _ Hi). lia. }
  split; [done|]. congruence.
Qed.

(** C3, as stated, fails on a table whose best column has the empty string
    as its header: that header has the strictly highest score, yet the
    detector returns none. *)
Lemma C3_unnamed_column_not_selected :
  ~ tier3AsSpecified unnamedColumnHeaders unnamedColumnRows.
Proof.
  intros H. destruct H as [_ H]; [by split|].
  specialize (H 0 "").
  assert (Hdetect : detectEmailColumn unnamedColumnHeaders unnamedColumnRows = None)
    by (vm_compute; reflexivity).
  rewrite Hdetect in H. enough (None = Some "") by discriminate.
  apply H; [|vm_compute; lia].
  split; [done|]. split.
  - intros [|[|j]] h'; simpl; intros [= <-]; vm_compute; lia.
  - intros j h' Hj. lia.
Qed.

(** C3, amended: when no header matches tier 1 or tier 2, the detector
    returns none if every header scores zero; otherwise it considers the
    header with the highest score, the earliest one on equal scores, and
    returns it if its name is not the empty string, and none if it is. *)
Theorem C3_tier3_selection headers rows :
  reachesTier3 headers ->
  ((forall h, h ∈ headers -> score rows h = 0) ->
   detectEmailColumn headers rows = None) /\
  (forall i h, firstBest headers rows i h -> 0 < score rows h ->
   detectEmailColumn headers rows = if Js.truthy h then Some h else None) /\
  ((exists h, h ∈ headers /\ 0 < score rows h) ->
   exists i h, firstBest headers rows i h /\ 0 < score rows h).
Proof.
  intros Ht.
  destruct (detectEmailColumn_tier3 rows headers Ht)
    as [[Hzero Hd]|(i & h & Hbest & Hpos & Hd)].
  - split; [done|]. split.
    + intros i' h' (Hi' & _) Hpos'.
      apply list_elem_of_lookup_2, Hzero in Hi'. lia.
    + intros (h' & Hin & Hpos'). apply Hzero in Hin. lia.
  - split; [|split].
    + intros Hzero. destruct Hbest as (Hi & _).
      apply list_elem_of_lookup_2, Hzero in Hi. lia.
    + intros i' h' Hbest' _.
      by destruct (firstBest_unique _ _ _ _ _ _ Hbest Hbest') as [_ <-].
    + intros _. by exists i, h.
Qed.

Lemma C3_tier3_selection_witness :
  reachesTier3 ["Name"; "Work"; "Home"] /\
  detectEmailColumn ["Name"; "Work"; "Home"]
    [[("Name", JsString "Al"); ("Work", JsString "a@x.com"); ("Home", JsString "a@h.org")];
     [("Name", JsString "Bo"); ("Work", JsString "-"); ("Home", JsString "-")]]
  = Some "Work".
Proof.
  split; [by split|].
  refine (proj1 (proj2 (C3_tier3_selection _ _ _)) 1 "Work" _ _).
  - by split.
  - split; [done|]. split.
    + intros [|[|[|j]]] h'; simpl; intros [= <-]; vm_compute; lia.
    + intros [|j] h' Hj; [|lia]. simpl. intros [= <-]. vm_compute. lia.
  - vm_compute. lia.
Defined.

(** ** C4: the only rejection is the empty table *)

(** C4: once decoding has completed, each pipeline rejects exactly when the
    row sequence is empty, with its empty-file error; on every non-empty row
    sequence, whatever the cells hold, it resolves. *)
Theorem C4_rejects_exactly_empty_table results options :
  match parseCSVAndExtractEmails (DecodeComplete results) options with
  | Rejected e => e = EmptyCsvFile /\ data results = []
  | Resolved _ => data results <> []
  end /\
  match parseTSVAndExtractEmails (DecodeComplete results) options with
  | Rejected e => e = EmptyTsvFile /\ data results = []
  | Resolved _ => data results <> []
  end.
Proof.
  unfold parseCSVAndExtractEmails, parseTSVAndExtractEmails.
  destruct (data results); split; done.
Qed.

(** ** C5: invalid values kept on request *)

Section KeepInvalid.
Import Js JsFacts.

(** With [rmInv] false, [extract] in column mode. *)
Lemma extract_keeps_invalid rmDup headers rows c :
  detectEmailColumn headers rows = Some c ->
  let raw := nonEmptyCells c rows in
  let r := extract rmDup false headers rows in
  st_invalid (stats r) = length (filter (fun v => isValidEmail v = false) raw) /\
  emails r = (if rmDup then dedupFirst (map normalize raw) else map normalize raw) /\
  st_valid (stats r) = length (emails r) /\
  (forall v, v ∈ raw -> isValidEmail v = false -> normalize v ∈ emails r).
Proof.
  intros Hd. cbv zeta. rewrite extract_spec. cbv zeta. simpl.
  rewrite invalidValues_rawValues.
  rewrite candidates_keep_all by apply rawValues_truthy.
  unfold rawValuesConsidered. rewrite Hd.
  split; [done|]. split; [|split; [done|]].
  - destruct rmDup; simpl; [apply freshFor_nil_l|done].
  - intros v Hv _. apply pushedBy_elem_of.
    by apply list_elem_of_In, in_map, list_elem_of_In.
Qed.
End KeepInvalid.

(** C5: with [removeInvalid] passed as false and a column detected, both
    pipelines count every raw value that fails validation in
    [stats.invalid]; the emails are the normal forms of all raw values, in
    order, without the later repeats when duplicates are removed; so the
    normal form of every invalid raw value is among the emails, and
    [stats.valid] is their number. *)
Theorem C5_invalid_values_kept results c (rmDup : option bool) :
  data results <> [] ->
  detectEmailColumn (headersOf results) (data results) = Some c ->
  let raw := nonEmptyCells c (data results) in
  let options := Some (mkOptions rmDup (Some false)) in
  keepsInvalid raw (flagOrTrue rmDup)
    (parseCSVAndExtractEmails (DecodeComplete results) options) /\
  keepsInvalid raw (Js.truthyFlag rmDup)
    (parseTSVAndExtractEmails (DecodeComplete results) options).
Proof.
  intros Hrows Hd. cbv zeta. split; eexists; (split; [|by apply extract_keeps_invalid]).
  - by apply csv_resolves.
  - by apply tsv_resolves.
Qed.

Lemma C5_invalid_values_kept_witness :
  exists r,
    parseCSVAndExtractEmails
      (table ["Contact"] (oneColumn "Contact" ["bad"; " BAD "; "c@d.com"]))
      (Some (mkOptions (Some true) (Some false))) = Resolved r /\
    st_invalid (stats r) = 2 /\ emails r = ["bad"; "c@d.com"] /\ st_valid (stats r) = 2.
Proof.
  destruct (C5_invalid_values_kept
              (mkParseResults (oneColumn "Contact" ["bad"; " BAD "; "c@d.com"])
                              (Some ["Contact"]))
              "Contact" (Some true))
    as [(r & Hr & Hinv & Hemails & Hvalid & _) _].
  - discriminate.
  - vm_compute. reflexivity.
  - exists r. split; [exact Hr|]. split; [exact Hinv|].
    split; [exact Hemails|]. rewrite Hvalid, Hemails. reflexivity.
Defined.

(** ** C6: total and valid *)

(** C6: whatever the options, a resolved result of either pipeline has
    [stats.total] equal to the number of raw values gathered before the
    loop and [stats.valid] equal to the number of emails returned. *)
Theorem C6_total_and_valid file options r :
  parseCSVAndExtractEmails file options = Resolved r \/
  parseTSVAndExtractEmails file options = Resolved r ->
  exists results,
    file = DecodeComplete results /\
    st_total (stats r)
    = length (rawValuesConsidered (headersOf results) (data results)) /\
    st_valid (stats r) = length (emails r).
Proof.
  intros (results & rmDup & rmInv & -> & _ & ->)%resolved_inv.
  exists results. split; [done|]. by rewrite extract_spec.
Qed.

Lemma C6_total_and_valid_witness :
  let r := mkResult ["bad"; "c@d.com"] (Some "Contact") (mkStats 2 2 1 0 0) in
  parseTSVAndExtractEmails scenarioB (bothFlags false false) = Resolved r /\
  exists results,
    scenarioB = DecodeComplete results /\
    st_total (stats r)
    = length (rawValuesConsidered (headersOf results) (data results)) /\
    st_valid (stats r) = length (emails r).
Proof.
  intros r. split; [vm_compute; reflexivity|].
  apply (C6_total_and_valid scenarioB (bothFlags false false) r).
  right. vm_compute. reflexivity.
Defined.

(** ** C7: the fallback scan *)

Section ObjectValues.

Lemma insertByIndex_elem_of n v l x :
  x ∈ insertByIndex n v l <-> x = (n, v) \/ x ∈ l.
Proof.
  induction l as [|[m w] l IH]; simpl.
  - rewrite list_elem_of_singleton, elem_of_nil. tauto.
  - destruct (n <? m)%N.
    + by rewrite elem_of_cons.
    + rewrite !elem_of_cons, IH. tauto.
Qed.

Example arrayIndex_ex :
  arrayIndex "1" = Some 1%N /\ arrayIndex "0" = Some 0%N /\
  arrayIndex "4294967294" = Some 4294967294%N /\
  arrayIndex "4294967295" = None /\ arrayIndex "01" = None /\
  arrayIndex "" = None /\ arrayIndex "b" = None /\ arrayIndex "1.0" = None.
Proof. repeat split; vm_compute; reflexivity. Qed.

Example objectValues_ex :
  objectValues [("", JsString "y"); ("b", JsString "b"); ("10", JsString "t");
                ("1", JsString "a")]
  = [JsString "a"; JsString "t"; JsString "y"; JsString "b"].
Proof. vm_compute. reflexivity. Qed.

(** Every property of the row is listed by [Object.values]. *)
Lemma objectValues_complete row k v : (k, v) ∈ row -> v ∈ objectValues row.
Proof.
  unfold objectValues. rewrite elem_of_app.
  induction row as [|[k' v'] row IH]; [by intros ?%elem_of_nil|].
  intros [[= -> ->]|Hin]%elem_of_cons; simpl.
  - destruct (arrayIndex k') as [n|].
    + left. apply list_elem_of_In, in_map_iff. exists (n, v'). split; [done|].
      apply list_elem_of_In, insertByIndex_elem_of. by left.
    + right. left.
  - destruct (IH Hin) as [Hi|Hn]; destruct (arrayIndex k') as [n|].
    + left. apply list_elem_of_In, in_map_iff.
      apply list_elem_of_In, in_map_iff in Hi as (x & Hx & Hxin).
      exists x. split; [done|].
      apply list_elem_of_In, insertByIndex_elem_of. right. by apply list_elem_of_In.
    + by left.
    + by right.
    + right. by right.
Qed.

(** Without array-index names the order is the order of creation. *)
Lemma objectValues_named row :
  (forall k, k ∈ map fst row -> arrayIndex k = None) ->
  objectValues row = map snd row.
Proof.
  intros Hk. unfold objectValues.
  assert (indexedProperties row = [] /\ namedValues row = map snd row) as [-> ->]; [|done].
  induction row as [|[k v] row IH]; [done|]. simpl.
  rewrite (Hk k) by left.
  destruct IH as [-> ->]; [|done]. intros k' Hk'. apply Hk. by right.
Qed.

Lemma getProperty_absent row h : h ∉ map fst row -> getProperty row h = None.
Proof.
  induction row as [|[k v] row IH]; [done|]. simpl.
  intros [Hne Hrest]%not_elem_of_cons.
  destruct (String.eqb_spec k h) as [->|_]; [done|]. by apply IH.
Qed.

Lemma omap_agree {A B} (f g : A -> option B) (l : list A) :
  (forall x, x ∈ l -> f x = g x) -> omap f l = omap g l.
Proof.
  induction l as [|x l IH]; intros H; [done|]. csimpl.
  rewrite (H x) by left. rewrite IH; [done|]. intros y Hy. apply H. by right.
Qed.

(** When the names of the row are headers, in header order, reading the
    row header by header gives its values in the order of creation. *)
Lemma row_in_column_order headers row :
  NoDup headers -> map fst row `sublist_of` headers ->
  omap (getProperty row) headers = map snd row.
Proof.
  intros Hnd Hsub. remember (map fst row) as keys eqn:Hkeys.
  revert row Hkeys Hnd.
  induction Hsub as [|k keys headers Hsub IH|h keys headers Hsub IH];
    intros row Hkeys Hnd.
  - by destruct row.
  - destruct row as [|[k' v] row]; [done|]. simpl in Hkeys.
    injection Hkeys as -> ->. apply NoDup_cons in Hnd as [Hk Hnd].
    csimpl. simpl getProperty at 1. rewrite String.eqb_refl. csimpl. f_equal.
    rewrite <- (IH row eq_refl Hnd). apply omap_agree.
    intros h Hh. simpl. destruct (String.eqb_spec k' h) as [->|_]; done.
  - apply NoDup_cons in Hnd as [Hh Hnd]. csimpl.
    rewrite getProperty_absent; [by apply IH|].
    rewrite <- Hkeys. intros Hin. apply Hh.
    by apply (sublist_subseteq _ _ Hsub).
Qed.

Lemma allCells_in_column_order headers rows :
  NoDup headers ->
  (forall h, h ∈ headers -> arrayIndex h = None) ->
  (forall row, row ∈ rows -> map fst row `sublist_of` headers) ->
  allCells rows = cellsInColumnOrder headers rows.
Proof.
  intros Hnd Hidx Hrows. unfold allCells, cellsInColumnOrder. f_equal.
  apply map_ext_in. intros row Hrow%list_elem_of_In.
  rewrite row_in_column_order by auto.
  apply objectValues_named. intros k Hk. apply Hidx.
  by apply (sublist_subseteq _ _ (Hrows row Hrow)).
Qed.
End ObjectValues.

Lemma scannedEmails_complete rows row v s :
  row ∈ rows -> v ∈ objectValues row -> v = JsString s ->
  isValidEmail s = true -> normalize s ∈ scannedEmails rows.
Proof.
  intros Hrow Hv -> Hs. unfold scannedEmails.
  apply list_elem_of_In, in_map_iff. exists (JsString s). split; [done|].
  apply list_elem_of_In, list_elem_of_filter. split.
  - unfold isEmailCell. simpl.
    by rewrite isValidEmail_trim, Hs, (isValidEmail_trim_truthy _ Hs).
  - unfold allCells. apply list_elem_of_In, in_concat.
    exists (objectValues row). split; [|by apply list_elem_of_In].
    by apply in_map, list_elem_of_In.
Qed.

(** C7, as stated, fails on a table with a column named by an array index:
    [Object.values] lists that column first in every row, so the emails do
    not come in row-then-column order.  Headers: the empty string, [b], [1];
    the code returns x, a, y, b where column order gives x, y, b, a. *)
Lemma C7_column_order_not_followed :
  ~ fallbackAsSpecified indexColumnHeaders indexColumnRows.
Proof.
  intros H.
  assert (Hd : detectEmailColumn indexColumnHeaders indexColumnRows = None)
    by (vm_compute; reflexivity).
  specialize (H Hd None
                (mkResult ["x@x.com"; "a@x.com"; "y@x.com"; "b@x.com"] None
                          (mkStats 4 4 0 0 0))).
  assert (Hspec : columnOrderScan indexColumnHeaders indexColumnRows
                  = ["x@x.com"; "y@x.com"; "b@x.com"; "a@x.com"])
    by (vm_compute; reflexivity).
  rewrite Hspec in H. simpl in H.
  enough (["x@x.com"; "a@x.com"; "y@x.com"; "b@x.com"]
          = ["x@x.com"; "y@x.com"; "b@x.com"; "a@x.com"]) by discriminate.
  apply H. vm_compute. reflexivity.
Qed.

(** C7, amended: when the detector returns none, both pipelines, whatever
    the options, return no detected column and, as emails, the trimmed and
    lower-cased valid-email cells of the table with only the first
    occurrence of each kept, scanned row by row and, within a row, in the
    order [Object.values] lists the cells: the columns named by an array
    index first, in ascending numeric order, then the other columns in
    column order.  Every cell that is a valid email appears, normalised,
    among the emails; and when no header is an array index (headers
    distinct, the names of each row among the headers in header order) the
    scan is in row-then-column order. *)
Theorem C7_fallback_scan results options :
  data results <> [] ->
  detectEmailColumn (headersOf results) (data results) = None ->
  let found := dedupFirst (scannedEmails (data results)) in
  let result := mkResult found None (mkStats (length found) (length found) 0 0 0) in
  parseCSVAndExtractEmails (DecodeComplete results) options = Resolved result /\
  parseTSVAndExtractEmails (DecodeComplete results) options = Resolved result /\
  (forall row k s, row ∈ data results -> (k, JsString s) ∈ row ->
     isValidEmail s = true -> normalize s ∈ found) /\
  (NoDup (headersOf results) ->
   (forall h, h ∈ headersOf results -> arrayIndex h = None) ->
   (forall row, row ∈ data results -> map fst row `sublist_of` headersOf results) ->
   found = columnOrderScan (headersOf results) (data results)).
Proof.
  intros Hrows Hd. cbv zeta. split; [|split; [|split]].
  - rewrite csv_resolves by done. by rewrite extract_fallback.
  - rewrite tsv_resolves by done. by rewrite extract_fallback.
  - intros row k s Hrow Hk Hvalid. rewrite dedupFirst_elem_of.
    eapply scannedEmails_complete; [done| |done|done].
    by eapply objectValues_complete.
  - intros Hnd Hidx Hkeys. unfold columnOrderScan, scannedEmails.
    by rewrite (allCells_in_column_order (headersOf results)).
Qed.

Lemma C7_fallback_scan_witness :
  parseCSVAndExtractEmails (table indexColumnHeaders indexColumnRows) None
  = Resolved (mkResult ["x@x.com"; "a@x.com"; "y@x.com"; "b@x.com"] None
                       (mkStats 4 4 0 0 0)).
Proof.
  refine (proj1 (C7_fallback_scan
            (mkParseResults indexColumnRows (Some indexColumnHeaders)) None _ _)).
  - discriminate.
  - vm_compute. reflexivity.
Defined.

(** ** C8: the exact header wins *)

Lemma find_exact_present headers :
  "E-mail 1 - Value" ∈ headers ->
  List.find isExactHeader headers = Some "E-mail 1 - Value".
Proof.
  induction headers as [|h hs IH]; [by intros ?%not_elem_of_nil|].
  intros Hin. simpl. destruct (isExactHeader h) eqn:E.
  - apply String.eqb_eq in E. by rewrite E.
  - apply IH. apply elem_of_cons in Hin as [<-|Hin]; [done|done].
Qed.

(** C8: whenever some header is exactly [E-mail 1 - Value], the detector
    returns that header, whatever the cells hold. *)
Theorem C8_exact_header_selected headers rows :
  "E-mail 1 - Value" ∈ headers ->
  detectEmailColumn headers rows = Some "E-mail 1 - Value".
Proof.
  intros Hin. unfold detectEmailColumn. by rewrite (find_exact_present _ Hin).
Qed.

Lemma C8_exact_header_selected_witness :
  score [[("Other", JsString "a@x.com"); ("E-mail 1 - Value", JsString "n/a")];
         [("Other", JsString "b@x.com"); ("E-mail 1 - Value", JsOther)]] "Other" = 2 /\
  score [[("Other", JsString "a@x.com"); ("E-mail 1 - Value", JsString "n/a")];
         [("Other", JsString "b@x.com"); ("E-mail 1 - Value", JsOther)]]
        "E-mail 1 - Value" = 0 /\
  detectEmailColumn ["Other"; "E-mail 1 - Value"]
    [[("Other", JsString "a@x.com"); ("E-mail 1 - Value", JsString "n/a")];
     [("Other", JsString "b@x.com"); ("E-mail 1 - Value", JsOther)]]
  = Some "E-mail 1 - Value".
Proof.
  split; [vm_compute; reflexivity|]. split; [vm_compute; reflexivity|].
  apply C8_exact_header_selected. apply elem_of_cons. right. apply elem_of_cons. by left.
Defined.

(** ** C9: case-insensitive deduplication *)

Section RemoveDuplicates.
Import Js JsFacts.

Lemma candidates_later rmInv pre v mid w post :
  normalize w = normalize v -> isCandidate rmInv (normalize v) = true ->
  let without := candidates rmInv (pre ++ v :: mid ++ post) in
  dedupFirst (candidates rmInv (pre ++ v :: mid ++ w :: post)) = dedupFirst without /\
  length (candidates rmInv (pre ++ v :: mid ++ w :: post)) = S (length without).
Proof.
  intros Hw Hc. cbv zeta.
  rewrite !candidates_app, !candidates_cons, !candidates_app, !candidates_cons.
  rewrite Hw, Hc. split; [apply dedupFirst_later|].
  rewrite !length_app. simpl. rewrite !length_app. simpl. lia.
Qed.

Lemma extract_deduplicates rmInv headers rows c :
  detectEmailColumn headers rows = Some c ->
  deduplicates (nonEmptyCells c rows) rmInv (Resolved (extract true rmInv headers rows)).
Proof.
  intros Hd. eexists. split; [done|]. rewrite extract_spec. cbv zeta. simpl.
  unfold rawValuesConsidered. rewrite Hd, freshFor_nil_l.
  assert (Hlen : length (candidates rmInv (nonEmptyCells c rows))
                 - length (dedupFirst (candidates rmInv (nonEmptyCells c rows)))
                 + length (dedupFirst (candidates rmInv (nonEmptyCells c rows)))
                 = length (candidates rmInv (nonEmptyCells c rows))).
  { pose proof (freshFor_length [] (candidates rmInv (nonEmptyCells c rows))) as Hle.
    rewrite freshFor_nil_l in Hle. lia. }
  split; [done|]. split; [apply dedupFirst_NoDup|]. split; [|split; [|split]].
  - intros e He. rewrite dedupFirst_elem_of in He. by eapply candidates_lowercase.
  - intros v Hv Hc. apply dedupFirst_elem_of, list_elem_of_filter. split; [done|].
    by apply list_elem_of_In, in_map, list_elem_of_In.
  - exact Hlen.
  - intros pre v mid w post Hraw Hw Hc. rewrite Hlen, Hraw.
    by apply candidates_later.
Qed.
End RemoveDuplicates.

(** C9: with [removeDuplicates] true and a column detected, the emails are
    the normalised (trimmed, lower-cased) candidates with only the first
    occurrence of each normal form kept, in the order of those first
    occurrences; they are pairwise distinct and in lower case; every
    candidate is represented; every candidate that is not output is counted
    in [stats.duplicates]; and a raw value whose normal form has occurred
    before adds no email and adds one to [stats.duplicates]. *)
Theorem C9_case_insensitive_dedup results c (rmInv : option bool) :
  data results <> [] ->
  detectEmailColumn (headersOf results) (data results) = Some c ->
  let raw := nonEmptyCells c (data results) in
  let options := Some (mkOptions (Some true) rmInv) in
  deduplicates raw (flagOrTrue rmInv)
    (parseCSVAndExtractEmails (DecodeComplete results) options) /\
  deduplicates raw (Js.truthyFlag rmInv)
    (parseTSVAndExtractEmails (DecodeComplete results) options).
Proof.
  intros Hrows Hd. cbv zeta. split.
  - rewrite csv_resolves by done. by apply extract_deduplicates.
  - rewrite tsv_resolves by done. by apply extract_deduplicates.
Qed.

Lemma C9_case_insensitive_dedup_witness :
  exists r,
    parseCSVAndExtractEmails
      (table ["Email"] (oneColumn "Email" ["A@B.com"; "x@y.org"; "a@b.com"]))
      (bothFlags true true) = Resolved r /\
    emails r = ["a@b.com"; "x@y.org"] /\
    st_duplicates (stats r) = 1.
Proof.
  destruct (C9_case_insensitive_dedup
              (mkParseResults (oneColumn "Email" ["A@B.com"; "x@y.org"; "a@b.com"])
                              (Some ["Email"]))
              "Email" (Some true))
    as [(r & Hr & Hemails & _ & _ & _ & Hdup & _) _].
  - discriminate.
  - vm_compute. reflexivity.
  - exists r. split; [exact Hr|]. split; [exact Hemails|].
    rewrite Hemails in Hdup.
    change (st_duplicates (stats r) + 2 = 3) in Hdup. lia.
Defined.

(** ** C10: the empty counter *)

(** C10: whatever the table and the options, a resolved result of either
    pipeline has [stats.empty] equal to zero. *)
Theorem C10_empty_always_zero file options r :
  parseCSVAndExtractEmails file options = Resolved r \/
  parseTSVAndExtractEmails file options = Resolved r ->
  st_empty (stats r) = 0.
Proof.
  intros (results & rmDup & rmInv & -> & _ & ->)%resolved_inv.
  by rewrite extract_spec, emptyValues_rawValues.
Qed.

Lemma C10_empty_always_zero_witness :
  let r := mkResult ["c@d.com"] (Some "Contact") (mkStats 2 1 1 0 0) in
  parseCSVAndExtractEmails scenarioB None = Resolved r /\ st_empty (stats r) = 0.
Proof.
  intros r. split; [vm_compute; reflexivity|].
  apply (C10_empty_always_zero scenarioB None r). left. vm_compute. reflexivity.
Defined.

(** * Further properties *)

(** ** The validator *)

Section Shape.
Import Js Regex.

Lemma append_nil_l (s : string) : ("" ++ s)%string = s.
Proof. reflexivity. Qed.

Lemma append_cons c (a b : string) : (String c a ++ b)%string = String c (a ++ b)%string.
Proof. reflexivity. Qed.

Lemma append_nil_r (s : string) : (s ++ "")%string = s.
Proof. induction s as [|c s IH]; [done|]. by rewrite append_cons, IH. Qed.

Lemma plusThen_split cls k s :
  plusThen cls k s = true <->
  exists a b, s = (a ++ b)%string /\ a <> "" /\ allOf cls a = true /\ k b = true.
Proof.
  split.
  - induction s as [|c r IH]; simpl; [done|].
    intros [Hc [Hr|Hr]%orb_true_iff]%andb_true_iff.
    + destruct (IH Hr) as (a & b & -> & Hne & Ha & Hb).
      exists (String c a), b. simpl. by rewrite Hc, Ha.
    + exists (String c ""), r. simpl. by rewrite Hc.
  - intros (a & b & -> & Hne & Ha & Hb).
    induction a as [|c a IH]; [done|]. rewrite append_cons. simpl in *.
    apply andb_true_iff in Ha as [Hc Ha]. rewrite Hc. simpl.
    destruct a as [|c' a'].
    + rewrite append_nil_l, Hb. apply orb_true_r.
    + rewrite IH; done.
Qed.

Lemma litThen_split a k s :
  litThen a k s = true <-> exists b, s = String a b /\ k b = true.
Proof.
  destruct s as [|c r]; simpl.
  - split; [done|]. by intros (b & ? & _).
  - rewrite andb_true_iff, Ascii.eqb_eq. split.
    + intros [-> Hk]. by exists r.
    + intros (b & [= -> ->] & Hk). done.
Qed.

Lemma atEnd_split s : atEnd s = true <-> s = "".
Proof. by destruct s. Qed.

Lemma EMAIL_REGEX_shape u : EMAIL_REGEX_test u = true <-> emailShaped u.
Proof.
  unfold EMAIL_REGEX_test, emailShaped. rewrite plusThen_split. split.
  - intros (l & b & -> & Hl & Hal & Hb).
    apply litThen_split in Hb as (b1 & -> & Hb1).
    apply plusThen_split in Hb1 as (d & b2 & -> & Hd & Had & Hb2).
    apply litThen_split in Hb2 as (b3 & -> & Hb3).
    apply plusThen_split in Hb3 as (t & b4 & -> & Ht & Hat & Hb4).
    apply atEnd_split in Hb4 as ->.
    exists l, d, t. split; [|done]. by rewrite append_nil_r.
  - intros (l & d & t & -> & Hl & Hd & Ht & Hal & Had & Hat).
    exists l, ("@" ++ d ++ "." ++ t)%string. split; [done|]. split; [done|].
    split; [done|]. apply litThen_split. eexists. split; [done|].
    apply plusThen_split. exists d, ("." ++ t)%string. split; [done|].
    split; [done|]. split; [done|]. apply litThen_split. eexists. split; [done|].
    apply plusThen_split. exists t, "". by rewrite append_nil_r.
Qed.
End Shape.

(** X1: a string is a valid email exactly when, once trimmed, it reads
    [local@domain.rest] with three non-empty parts that contain neither
    white space nor [@]. *)
Theorem X1_valid_email_shape s :
  isValidEmail s = true <-> emailShaped (Js.trim s).
Proof. unfold isValidEmail. apply EMAIL_REGEX_shape. Qed.

(** X2: validity does not depend on surrounding white space or on letter
    case, so the check of the normalised value in the statistics loop agrees
    with the check of the cell. *)
Theorem X2_validity_ignores_space_and_case s :
  isValidEmail (Js.trim s) = isValidEmail s /\
  isValidEmail (Js.toLowerCase s) = isValidEmail s /\
  isValidEmail (normalize s) = isValidEmail s.
Proof.
  split; [apply isValidEmail_trim|].
  split; [apply isValidEmail_toLowerCase|apply isValidEmail_normalize].
Qed.

(** ** The detector *)

Lemma find_first {A} (p : A -> bool) (pre : list A) (x : A) (post : list A) :
  (forall y, y ∈ pre -> p y = false) -> p x = true ->
  List.find p (pre ++ x :: post) = Some x.
Proof.
  intros Hpre Hx. induction pre as [|y pre IH]; simpl.
  - by rewrite Hx.
  - rewrite (Hpre y) by left. apply IH. intros z Hz. apply Hpre. by right.
Qed.

Lemma find_none_iff {A} (p : A -> bool) (l : list A) :
  List.find p l = None <-> forall y, y ∈ l -> p y = false.
Proof.
  split.
  - intros H y Hy%list_elem_of_In. by eapply find_none.
  - intros H. induction l as [|y l IH]; simpl; [done|].
    rewrite (H y) by left. apply IH. intros z Hz. apply H. by right.
Qed.

(** X3: when no header is exactly [E-mail 1 - Value], the detector returns
    the first header whose lower-cased name contains both [e-mail] and
    [value], whatever the cells hold. *)
Theorem X3_tier2_first_match pre h post rows :
  (forall y, y ∈ pre ++ h :: post -> y <> "E-mail 1 - Value") ->
  (forall y, y ∈ pre -> isEmailValueHeader y = false) ->
  isEmailValueHeader h = true ->
  detectEmailColumn (pre ++ h :: post) rows = Some h.
Proof.
  intros Hexact Hpre Hh. unfold detectEmailColumn.
  assert (List.find isExactHeader (pre ++ h :: post) = None) as ->.
  { apply find_none_iff. intros y Hy. unfold isExactHeader.
    apply String.eqb_neq. by apply Hexact. }
  simpl. rewrite (find_first _ _ _ _ Hpre Hh). simpl.
  destruct h; [by vm_compute in Hh|done].
Qed.

Lemma X3_tier2_first_match_witness :
  detectEmailColumn (["Name"; "Mail"] ++ "Work E-MAIL (Value)" :: ["e-mail value"])
    [[("Name", JsString "Al"); ("Mail", JsString "a@x.com");
      ("Work E-MAIL (Value)", JsString "-"); ("e-mail value", JsString "b@x.com")]]
  = Some "Work E-MAIL (Value)".
Proof.
  apply X3_tier2_first_match.
  - intros y Hy. repeat (apply elem_of_cons in Hy as [->|Hy]; [discriminate|]).
    by apply not_elem_of_nil in Hy.
  - intros y Hy. repeat (apply elem_of_cons in Hy as [->|Hy]; [vm_compute; reflexivity|]).
    by apply not_elem_of_nil in Hy.
  - vm_compute. reflexivity.
Defined.

(** X4: a column the detector returns is one of the headers and its name
    is not the empty string. *)
Theorem X4_detected_column_is_a_header headers rows c :
  detectEmailColumn headers rows = Some c -> c ∈ headers /\ c <> "".
Proof.
  intros Hd. split.
  - revert Hd. unfold detectEmailColumn.
    destruct (List.find isExactHeader headers) as [h|] eqn:E1; simpl.
    + pose proof (find_exact_truthy _ _ E1) as ->. simpl. intros [= <-].
      apply find_some in E1 as [Hin _]. by apply list_elem_of_In.
    + destruct (List.find isEmailValueHeader headers) as [h|] eqn:E2; simpl.
      * rewrite (find_emailValue_truthy _ _ E2). intros [= <-].
        apply find_some in E2 as [Hin _]. by apply list_elem_of_In.
      * pose proof (scoreHeaders_scored rows headers) as Hs.
        destruct (scoreHeaders headers rows) as [[h|] mx]; simpl in *; [|done].
        destruct (Js.truthy h && (0 <? mx)%nat); [|done]. intros [= <-].
        destruct Hs as (_ & _ & i & Hi & _). by eapply list_elem_of_lookup_2.
  - apply detectEmailColumn_truthy in Hd. by destruct c.
Qed.

Lemma X4_detected_column_is_a_header_witness :
  detectEmailColumn ["Name"; "Work"]
    [[("Name", JsString "Al"); ("Work", JsString "a@x.com")]] = Some "Work" /\
  "Work" ∈ ["Name"; "Work"] /\ "Work" <> "".
Proof.
  split; [vm_compute; reflexivity|].
  apply (X4_detected_column_is_a_header ["Name"; "Work"]
           [[("Name", JsString "Al"); ("Work", JsString "a@x.com")]]).
  vm_compute. reflexivity.
Defined.

(** ** The column extractors and the statistics *)

Section Extractors.
Import Js JsFacts.

Lemma nonEmptyCells_cons c row rows :
  nonEmptyCells c (row :: rows)
  = if truthy (cellText row c) then cellText row c :: nonEmptyCells c rows
    else nonEmptyCells c rows.
Proof.
  unfold nonEmptyCells. simpl. rewrite filter_cons.
  destruct (truthy (cellText row c)) eqn:E.
  - by rewrite decide_True.
  - by rewrite decide_False by (simpl; congruence).
Qed.

Lemma extractEmailsFromColumn_spec c rows :
  truthy c = true ->
  extractEmailsFromColumn (Some c) rows
  = map (fun row => toLowerCase (cellText row c))
      (filter (fun row => truthy (cellText row c) && isValidEmail (cellText row c) = true)
              rows).
Proof.
  intros Hc. unfold extractEmailsFromColumn. rewrite Hc.
  by rewrite (fold_left_push
                (fun row => truthy (cellText row c) && isValidEmail (cellText row c))
                (fun row => toLowerCase (cellText row c))).
Qed.

(** The valid candidates of a column are what [extractEmailsFromColumn]
    returns. *)
Lemma candidates_of_column c rows :
  truthy c = true ->
  candidates true (nonEmptyCells c rows) = extractEmailsFromColumn (Some c) rows.
Proof.
  intros Hc. rewrite extractEmailsFromColumn_spec by done.
  induction rows as [|row rows IH]; [done|].
  rewrite nonEmptyCells_cons, filter_cons.
  pose proof (cellText_trimmed row c) as Htrim.
  destruct (truthy (cellText row c)) eqn:Et.
  - rewrite candidates_cons. unfold isCandidate.
    rewrite truthy_normalize, Htrim, Et, isValidEmail_normalize, orb_false_r.
    destruct (isValidEmail (cellText row c)) eqn:Ev; simpl.
    + rewrite IH. f_equal. unfold normalize. by rewrite Htrim.
    + done.
  - done.
Qed.

Lemma extractEmailsFromColumn_length c rows :
  truthy c = true ->
  length (extractEmailsFromColumn (Some c) rows) = countEmailLikeValues c rows.
Proof.
  intros Hc. rewrite extractEmailsFromColumn_spec by done. rewrite length_map.
  unfold countEmailLikeValues.
  by rewrite (fold_left_count
                (fun row => truthy (cellText row c) && isValidEmail (cellText row c))).
Qed.

Lemma dedupFirst_sublist l : dedupFirst l `sublist_of` l.
Proof.
  induction l as [|x l IH]; simpl; [constructor|].
  constructor. etrans; [apply sublist_filter|done].
Qed.

Lemma pushedBy_sublist rmDup cand : pushedBy rmDup [] cand `sublist_of` cand.
Proof.
  destruct rmDup; simpl; [|done]. rewrite freshFor_nil_l. apply dedupFirst_sublist.
Qed.

Lemma candidates_inv rmInv raw e :
  e ∈ candidates rmInv raw ->
  e <> "" /\ normalize e = e /\ (rmInv = true -> isValidEmail e = true).
Proof.
  intros [Hc (v & <- & _)%list_elem_of_In%in_map_iff]%list_elem_of_filter.
  unfold isCandidate in Hc. apply andb_true_iff in Hc as [Ht Hv].
  split; [by destruct (normalize v)|]. split; [apply normalize_idem|].
  intros ->. by rewrite orb_false_r in Hv.
Qed.

(** Every raw value is a candidate, a dropped invalid value or empty. *)
Lemma raw_partition rmInv raw :
  length (candidates rmInv raw)
  + (if rmInv then length (invalidValues raw) else 0)
  + length (emptyValues raw) = length raw.
Proof.
  induction raw as [|v raw IH]; [by destruct rmInv|].
  rewrite candidates_cons, invalidValues_cons, emptyValues_cons.
  unfold isCandidate.
  destruct (truthy (normalize v)), (isValidEmail (normalize v)), rmInv;
    simpl in *; lia.
Qed.

Lemma extract_balanced rmDup rmInv headers rows :
  balanced rmDup rmInv (Resolved (extract rmDup rmInv headers rows)).
Proof.
  eexists. split; [done|]. rewrite extract_spec. cbv zeta. simpl.
  pose proof (raw_partition rmInv (rawValuesConsidered headers rows)) as Hp.
  rewrite emptyValues_rawValues in Hp. simpl in Hp.
  pose proof (sublist_length _ _
                (pushedBy_sublist rmDup (candidates rmInv (rawValuesConsidered headers rows))))
    as Hle.
  split; [lia|]. split.
  - apply length_filter.
  - intros ->. simpl. lia.
Qed.

Lemma extract_wellFormed rmDup rmInv headers rows :
  wellFormed (rawValuesConsidered headers rows) rmDup rmInv
    (Resolved (extract rmDup rmInv headers rows)).
Proof.
  eexists. split; [done|]. rewrite extract_spec. cbv zeta. simpl.
  split; [|split].
  - intros e He%pushedBy_elem_of. by eapply candidates_inv.
  - intros ->. simpl. rewrite freshFor_nil_l. apply dedupFirst_NoDup.
  - etrans; [apply pushedBy_sublist|]. apply sublist_filter.
Qed.
End Extractors.

(** X5: in column mode [extractEmailsFromColumn] returns as many emails as
    [countEmailLikeValues] counts, and the CSV pipeline returns exactly its
    result when only invalid values are removed, and its first occurrences
    when duplicates are removed as well. *)
Theorem X5_column_emails results c :
  data results <> [] ->
  detectEmailColumn (headersOf results) (data results) = Some c ->
  let column := extractEmailsFromColumn (Some c) (data results) in
  length column = countEmailLikeValues c (data results) /\
  exists r1 r2,
    parseCSVAndExtractEmails (DecodeComplete results) (bothFlags false true)
    = Resolved r1 /\ emails r1 = column /\
    parseCSVAndExtractEmails (DecodeComplete results) (bothFlags true true)
    = Resolved r2 /\ emails r2 = dedupFirst column.
Proof.
  intros Hrows Hd. cbv zeta.
  pose proof (detectEmailColumn_truthy _ _ _ Hd) as Hc.
  split; [by apply extractEmailsFromColumn_length|].
  eexists _, _. rewrite !csv_resolves by done.
  split; [done|]. split; [|split; [done|]].
  - rewrite extract_spec. cbv zeta. simpl. unfold rawValuesConsidered.
    rewrite Hd. by apply candidates_of_column.
  - rewrite extract_spec. cbv zeta. simpl. unfold rawValuesConsidered.
    rewrite Hd, freshFor_nil_l. f_equal. by apply candidates_of_column.
Qed.

Lemma X5_column_emails_witness :
  length (extractEmailsFromColumn (Some "Contact")
            (oneColumn "Contact" ["bad"; " C@d.com"; ""; "c@D.com "])) = 2 /\
  exists r1 r2,
    parseCSVAndExtractEmails
      (table ["Contact"] (oneColumn "Contact" ["bad"; " C@d.com"; ""; "c@D.com "]))
      (bothFlags false true) = Resolved r1 /\ emails r1 = ["c@d.com"; "c@d.com"] /\
    parseCSVAndExtractEmails
      (table ["Contact"] (oneColumn "Contact" ["bad"; " C@d.com"; ""; "c@D.com "]))
      (bothFlags true true) = Resolved r2 /\ emails r2 = ["c@d.com"].
Proof.
  apply (X5_column_emails
           (mkParseResults (oneColumn "Contact" ["bad"; " C@d.com"; ""; "c@D.com "])
                           (Some ["Contact"])) "Contact").
  - discriminate.
  - vm_compute. reflexivity.
Defined.

(** X6: in every resolved result the counters add up: total = valid +
    duplicates, plus invalid when invalid values are removed; invalid never
    exceeds total; and duplicates is zero when duplicates are kept. *)
Theorem X6_counters_add_up results options :
  data results <> [] ->
  balanced (csvFlags options).1 (csvFlags options).2
    (parseCSVAndExtractEmails (DecodeComplete results) options) /\
  balanced (tsvFlags options).1 (tsvFlags options).2
    (parseTSVAndExtractEmails (DecodeComplete results) options).
Proof.
  intros Hrows. rewrite csv_resolves, tsv_resolves by done.
  split; apply extract_balanced.
Qed.

Lemma X6_counters_add_up_witness :
  balanced true true (parseCSVAndExtractEmails scenarioB None) /\
  balanced false false (parseTSVAndExtractEmails scenarioB None).
Proof.
  apply (X6_counters_add_up
           (mkParseResults (oneColumn "Contact" ["bad"; ""; "c@d.com"]) (Some ["Contact"]))
           None).
  discriminate.
Defined.

(** X7: in every resolved result each email is non-empty and already
    trimmed and lower-cased; the emails follow the order of the raw values;
    they are all valid when invalid values are removed and pairwise distinct
    when duplicates are removed. *)
Theorem X7_emails_well_formed results options :
  data results <> [] ->
  let raw := rawValuesConsidered (headersOf results) (data results) in
  wellFormed raw (csvFlags options).1 (csvFlags options).2
    (parseCSVAndExtractEmails (DecodeComplete results) options) /\
  wellFormed raw (tsvFlags options).1 (tsvFlags options).2
    (parseTSVAndExtractEmails (DecodeComplete results) options).
Proof.
  intros Hrows. cbv zeta. rewrite csv_resolves, tsv_resolves by done.
  split; apply extract_wellFormed.
Qed.

Lemma X7_emails_well_formed_witness :
  wellFormed ["bad"; "c@d.com"] true true (parseCSVAndExtractEmails scenarioB None) /\
  wellFormed ["bad"; "c@d.com"] false false (parseTSVAndExtractEmails scenarioB None).
Proof.
  apply (X7_emails_well_formed
           (mkParseResults (oneColumn "Contact" ["bad"; ""; "c@d.com"]) (Some ["Contact"]))
           None).
  discriminate.
Defined.

(** X8: once a column is detected the pipelines never fall back to the
    scan of all cells: when the detected column has no non-empty string
    cell, both resolve with no email and all counters zero, whatever the
    other columns hold. *)
Theorem X8_no_fallback_on_empty_column results options c :
  data results <> [] ->
  detectEmailColumn (headersOf results) (data results) = Some c ->
  (forall row, row ∈ data results -> cellText row c = "") ->
  parseCSVAndExtractEmails (DecodeComplete results) options
  = Resolved (mkResult [] (Some c) (mkStats 0 0 0 0 0)) /\
  parseTSVAndExtractEmails (DecodeComplete results) options
  = Resolved (mkResult [] (Some c) (mkStats 0 0 0 0 0)).
Proof.
  intros Hrows Hd Hcells.
  assert (Hraw : rawValuesConsidered (headersOf results) (data results) = []).
  { unfold rawValuesConsidered. rewrite Hd. apply filter_none.
    intros v (row & <- & Hrow%list_elem_of_In)%list_elem_of_In%in_map_iff.
    by rewrite (Hcells _ Hrow). }
  rewrite csv_resolves, tsv_resolves by done.
  rewrite !extract_spec, Hraw, Hd. cbv zeta.
  rewrite !pushedBy_nil. done.
Qed.

Lemma X8_no_fallback_on_empty_column_witness :
  parseCSVAndExtractEmails
    (table ["E-mail 1 - Value"; "Other"]
       [[("E-mail 1 - Value", JsString "  "); ("Other", JsString "a@x.com")];
        [("Other", JsString "b@x.com")]])
    None
  = Resolved (mkResult [] (Some "E-mail 1 - Value") (mkStats 0 0 0 0 0)).
Proof.
  refine (proj1 (X8_no_fallback_on_empty_column
            (mkParseResults
               [[("E-mail 1 - Value", JsString "  "); ("Other", JsString "a@x.com")];
                [("Other", JsString "b@x.com")]]
               (Some ["E-mail 1 - Value"; "Other"]))
            None "E-mail 1 - Value" _ _ _)).
  - discriminate.
  - vm_compute. reflexivity.
  - intros row Hrow.
    repeat (apply elem_of_cons in Hrow as [->|Hrow]; [vm_compute; reflexivity|]).
    by apply not_elem_of_nil in Hrow.
Defined.

(** ** Sent status *)

Section SentStatus.
Import Js JsFacts.

Lemma lowerSet_fixed s : lowerSet s -> setOfList (map toLowerCase s) = s.
Proof.
  intros [Hnd Hlow].
  assert (map toLowerCase s = s) as ->.
  { rewrite <- (map_id s) at 2. apply map_ext_in. intros x Hx%list_elem_of_In. auto. }
  by apply dedupFirst_fixed.
Qed.

Lemma getSentEmails_lowerSet hasWindow item : lowerSet (getSentEmails hasWindow item).
Proof.
  assert (lowerSet []) by (split; [constructor|by intros x ?%not_elem_of_nil]).
  unfold getSentEmails. destruct hasWindow; [|done]. destruct item; try done.
  split; [apply dedupFirst_NoDup|].
  intros x (y & <- & _)%dedupFirst_elem_of%list_elem_of_In%in_map_iff.
  apply toLowerCase_idem.
Qed.

Lemma setAdd_elem_of x s y : y ∈ setAdd x s <-> y = x \/ y ∈ s.
Proof.
  unfold setAdd, setHas. case_bool_decide as Hx.
  - split; [by right|]. by intros [->|].
  - rewrite elem_of_app, list_elem_of_singleton. tauto.
Qed.

Lemma setDelete_elem_of x s y : y ∈ setDelete x s <-> y <> x /\ y ∈ s.
Proof. unfold setDelete. by rewrite list_elem_of_filter. Qed.

Lemma setAdd_lowerSet x s : toLowerCase x = x -> lowerSet s -> lowerSet (setAdd x s).
Proof.
  intros Hx [Hnd Hlow]. unfold setAdd, setHas. case_bool_decide as Hin; [done|].
  split.
  - apply NoDup_app. split; [done|]. split; [|apply NoDup_singleton].
    intros y Hy ->%list_elem_of_singleton. done.
  - intros y [Hy| ->%list_elem_of_singleton]%elem_of_app; auto.
Qed.

Lemma setDelete_lowerSet x s : lowerSet s -> lowerSet (setDelete x s).
Proof.
  intros [Hnd Hlow]. split; [by apply NoDup_filter|].
  intros y [_ Hy]%setDelete_elem_of. auto.
Qed.

Lemma getSentEmails_markAsSent email item :
  getSentEmails true (markAsSent true email item)
  = setAdd (toLowerCase email) (getSentEmails true item).
Proof.
  simpl. apply lowerSet_fixed, setAdd_lowerSet;
    [apply toLowerCase_idem|apply (getSentEmails_lowerSet true)].
Qed.

Lemma getSentEmails_markAsUnsent email item :
  getSentEmails true (markAsUnsent true email item)
  = setDelete (toLowerCase email) (getSentEmails true item).
Proof.
  simpl. apply lowerSet_fixed, setDelete_lowerSet, (getSentEmails_lowerSet true).
Qed.

Lemma isSent_true email item :
  isSent true email item = true <-> toLowerCase email ∈ getSentEmails true item.
Proof. unfold isSent, setHas. apply bool_decide_eq_true. Qed.

Lemma isSent_markAsSent email other item :
  isSent true other (markAsSent true email item)
  = if decide (toLowerCase other = toLowerCase email) then true
    else isSent true other item.
Proof.
  unfold isSent at 1, setHas. rewrite getSentEmails_markAsSent.
  destruct (decide (toLowerCase other = toLowerCase email)) as [Heq|Hne].
  - apply bool_decide_eq_true, setAdd_elem_of. by left.
  - unfold isSent, setHas. apply bool_decide_ext. rewrite setAdd_elem_of. tauto.
Qed.

Lemma isSent_markAsUnsent email other item :
  isSent true other (markAsUnsent true email item)
  = if decide (toLowerCase other = toLowerCase email) then false
    else isSent true other item.
Proof.
  unfold isSent at 1, setHas. rewrite getSentEmails_markAsUnsent.
  destruct (decide (toLowerCase other = toLowerCase email)) as [Heq|Hne].
  - apply bool_decide_eq_false. rewrite setDelete_elem_of. tauto.
  - unfold isSent, setHas. apply bool_decide_ext. rewrite setDelete_elem_of. tauto.
Qed.

Lemma isSent_toggleSent email other item :
  isSent true other (toggleSent true email item)
  = if decide (toLowerCase other = toLowerCase email) then negb (isSent true other item)
    else isSent true other item.
Proof.
  unfold toggleSent.
  destruct (isSent true email item) eqn:E.
  - rewrite isSent_markAsUnsent. case_decide as Heq; [|done].
    unfold isSent in *. by rewrite Heq, E.
  - rewrite isSent_markAsSent. case_decide as Heq; [|done].
    unfold isSent in *. by rewrite Heq, E.
Qed.
End SentStatus.

(** X9: in the browser, after [markAsSent] an address is sent, in whatever
    letter case it is asked for, and after [markAsUnsent] it is not; this
    holds whatever the storage held before, unusable content included. *)
Theorem X9_mark_then_ask email asked item :
  Js.toLowerCase asked = Js.toLowerCase email ->
  isSent true asked (markAsSent true email item) = true /\
  isSent true asked (markAsUnsent true email item) = false.
Proof.
  intros Heq. rewrite isSent_markAsSent, isSent_markAsUnsent.
  by rewrite !decide_True.
Qed.

Lemma X9_mark_then_ask_witness :
  isSent true "ann@x.com" (markAsSent true "Ann@X.com" Unusable) = true /\
  isSent true "ann@x.com"
    (markAsUnsent true "Ann@X.com" (StringArray ["ANN@x.com"; "bo@x.com"])) = false.
Proof.
  split.
  - apply (proj1 (X9_mark_then_ask "Ann@X.com" "ann@x.com" Unusable eq_refl)).
  - apply (proj2 (X9_mark_then_ask "Ann@X.com" "ann@x.com"
                    (StringArray ["ANN@x.com"; "bo@x.com"]) eq_refl)).
Defined.

(** X10: marking or unmarking one address leaves the status of every
    address with another lower-case form as it was. *)
Theorem X10_other_addresses_untouched email other item :
  Js.toLowerCase other <> Js.toLowerCase email ->
  isSent true other (markAsSent true email item) = isSent true other item /\
  isSent true other (markAsUnsent true email item) = isSent true other item.
Proof.
  intros Hne. rewrite isSent_markAsSent, isSent_markAsUnsent.
  by rewrite !decide_False.
Qed.

Lemma X10_other_addresses_untouched_witness :
  isSent true "bo@x.com" (markAsSent true "ann@x.com" (StringArray ["Bo@x.com"]))
  = isSent true "bo@x.com" (StringArray ["Bo@x.com"]) /\
  isSent true "bo@x.com" (markAsUnsent true "ann@x.com" (StringArray ["Bo@x.com"]))
  = isSent true "bo@x.com" (StringArray ["Bo@x.com"]).
Proof. apply X10_other_addresses_untouched. discriminate. Defined.

(** X11: what a mark writes is read back as it was written: the set read
    after [markAsSent] is the set read before with the lower-cased address
    added at the end if it was missing, and after [markAsUnsent] it is the
    set read before without that address; the stored list has no repeats
    and is in lower case. *)
Theorem X11_storage_round_trip email item :
  getSentEmails true (markAsSent true email item)
  = setAdd (Js.toLowerCase email) (getSentEmails true item) /\
  getSentEmails true (markAsUnsent true email item)
  = setDelete (Js.toLowerCase email) (getSentEmails true item) /\
  markAsSent true email item
  = StringArray (getSentEmails true (markAsSent true email item)) /\
  markAsUnsent true email item
  = StringArray (getSentEmails true (markAsUnsent true email item)) /\
  NoDup (getSentEmails true (markAsSent true email item)) /\
  NoDup (getSentEmails true (markAsUnsent true email item)).
Proof.
  split; [apply getSentEmails_markAsSent|].
  split; [apply getSentEmails_markAsUnsent|].
  split; [by rewrite getSentEmails_markAsSent|].
  split; [by rewrite getSentEmails_markAsUnsent|].
  split; apply (getSentEmails_lowerSet true).
Qed.

(** X12: [toggleSent] flips the status of the address, in any letter case,
    and of no other address; toggling twice gives back the status of every
    address. *)
Theorem X12_toggle email other item :
  isSent true other (toggleSent true email item)
  = (if decide (Js.toLowerCase other = Js.toLowerCase email)
     then negb (isSent true other item) else isSent true other item) /\
  isSent true other (toggleSent true email (toggleSent true email item))
  = isSent true other item.
Proof.
  split; [apply isSent_toggleSent|].
  rewrite !isSent_toggleSent. case_decide; [apply negb_involutive|done].
Qed.

(** X13: marking an address twice is the same as marking it once, and
    unmarking an address that was marked while unsent gives back the set
    that was read before. *)
Theorem X13_mark_idempotent_and_undone email item :
  markAsSent true email (markAsSent true email item) = markAsSent true email item /\
  (isSent true email item = false ->
   getSentEmails true (markAsUnsent true email (markAsSent true email item))
   = getSentEmails true item).
Proof.
  split.
  - change (markAsSent true email (markAsSent true email item))
      with (StringArray (setAdd (Js.toLowerCase email)
                           (getSentEmails true (markAsSent true email item)))).
    rewrite getSentEmails_markAsSent. unfold markAsSent. f_equal.
    unfold setAdd at 1, setHas.
    rewrite bool_decide_eq_true_2; [done|]. apply setAdd_elem_of. by left.
  - intros Hnot. rewrite getSentEmails_markAsUnsent, getSentEmails_markAsSent.
    unfold isSent, setHas in Hnot. apply bool_decide_eq_false in Hnot.
    unfold setAdd, setHas. rewrite bool_decide_eq_false_2 by done.
    unfold setDelete. rewrite filter_app, filter_cons_False, filter_nil, app_nil_r
      by (by intros ?).
    apply filter_all. by intros y Hy ->.
Qed.

Lemma X13_mark_idempotent_and_undone_witness :
  markAsSent true "Ann@x.com" (markAsSent true "Ann@x.com" (StringArray ["bo@x.com"]))
  = markAsSent true "Ann@x.com" (StringArray ["bo@x.com"]) /\
  getSentEmails true
    (markAsUnsent true "Ann@x.com" (markAsSent true "Ann@x.com" (StringArray ["bo@x.com"])))
  = getSentEmails true (StringArray ["bo@x.com"]).
Proof.
  split.
  - apply (proj1 (X13_mark_idempotent_and_undone "Ann@x.com" (StringArray ["bo@x.com"]))).
  - apply (proj2 (X13_mark_idempotent_and_undone "Ann@x.com" (StringArray ["bo@x.com"]))).
    vm_compute. reflexivity.
Defined.

(** ** Paging *)

Section Paging.
Import Js.

Lemma stepIndex_lt direction n index : 0 < n -> stepIndex direction n index < n.
Proof. intros Hn. destruct direction; simpl; apply Nat.mod_upper_bound; lia. Qed.

Lemma visited_shift direction n start k :
  visited direction n start (S k) = visited direction n (stepIndex direction n start) k.
Proof. unfold visited. apply Nat.iter_succ_r. Qed.

Lemma visited_offset direction n start k :
  start < n -> k <= n -> visited direction n start k = offsetIndex direction n start k.
Proof.
  intros Hs. unfold visited. induction k as [|k IH]; intros Hk; simpl.
  - destruct direction; simpl.
    + rewrite Nat.add_0_r. symmetry. by apply Nat.mod_small.
    + replace (start + n - 0) with (start + 1 * n) by lia.
      rewrite Nat.Div0.mod_add. symmetry. by apply Nat.mod_small.
  - rewrite IH by lia. destruct direction; simpl.
    + rewrite Nat.Div0.add_mod_idemp_l. f_equal. lia.
    + replace ((start + n - k) mod n + n - 1) with ((start + n - k) mod n + (n - 1))
        by lia.
      rewrite Nat.Div0.add_mod_idemp_l.
      replace (start + n - k + (n - 1)) with (start + n - S k + 1 * n) by lia.
      apply Nat.Div0.mod_add.
Qed.

(** Within [n] steps every index is reached. *)
Lemma offsetIndex_onto direction n start j :
  start < n -> j < n -> exists k, 1 <= k <= n /\ offsetIndex direction n start k = j.
Proof.
  intros Hs Hj. destruct direction; simpl.
  - destruct (decide (start < j)).
    + exists (j - start). split; [lia|].
      replace (start + (j - start)) with j by lia. by apply Nat.mod_small.
    + exists (j + n - start). split; [lia|].
      replace (start + (j + n - start)) with (j + 1 * n) by lia.
      rewrite Nat.Div0.mod_add. by apply Nat.mod_small.
  - destruct (decide (j < start)).
    + exists (start - j). split; [lia|].
      replace (start + n - (start - j)) with (j + 1 * n) by lia.
      rewrite Nat.Div0.mod_add. by apply Nat.mod_small.
    + exists (start + n - j). split; [lia|].
      replace (start + n - (start + n - j)) with j by lia. by apply Nat.mod_small.
Qed.

Section Loop.
Variables (hasWindow : bool) (item : StoredItem) (emails : list string).
Variable direction : Direction.

Let n := length emails.
Let sent := getSentEmails hasWindow item.

Lemma searchLoop_spec fuel : forall index,
  0 < n ->
  match searchLoop emails sent direction fuel index with
  | Found i =>
      exists k, 1 <= k <= fuel /\ i = visited direction n index k /\ i < n /\
        (exists e, emails !! i = Some e /\ isSent hasWindow e item = false) /\
        forall k', 1 <= k' < k ->
          sentAt hasWindow item emails (visited direction n index k')
  | NotFound =>
      forall k, 1 <= k <= fuel ->
        sentAt hasWindow item emails (visited direction n index k)
  | Thrown => False
  end.
Proof.
  induction fuel as [|fuel IH]; intros index Hn; simpl.
  - intros k Hk. lia.
  - pose proof (stepIndex_lt direction n index Hn) as Hlt. fold n.
    destruct (lookup_lt_is_Some_2 emails (stepIndex direction n index) Hlt) as [e He].
    rewrite He.
    destruct (setHas (toLowerCase e) sent) eqn:Es; simpl.
    + specialize (IH (stepIndex direction n index) Hn).
      assert (Hfirst : sentAt hasWindow item emails (visited direction n index 1)).
      { exists e. split; [exact He|exact Es]. }
      destruct (searchLoop emails sent direction fuel (stepIndex direction n index))
        as [i| |]; [| |done].
      * destruct IH as (k & Hk & -> & Hi & Hun & Hbefore).
        exists (S k). split; [lia|]. split; [by rewrite visited_shift|].
        split; [done|]. split; [done|].
        intros [|[|k']] Hk'; [lia|done|].
        rewrite visited_shift. apply Hbefore. lia.
      * intros [|[|k]] Hk; [lia|done|].
        rewrite visited_shift. apply IH. lia.
    + exists 1. split; [lia|]. split; [done|]. split; [done|].
      split; [by exists e|]. intros k' Hk'. lia.
Qed.
End Loop.

Lemma findNextUnsent_spec hasWindow item emails start direction :
  match findNextUnsent hasWindow item emails start direction with
  | Found i =>
      exists k, 1 <= k <= length emails /\
        i = visited direction (length emails) start k /\ i < length emails /\
        (exists e, emails !! i = Some e /\ isSent hasWindow e item = false) /\
        forall k', 1 <= k' < k ->
          sentAt hasWindow item emails (visited direction (length emails) start k')
  | NotFound =>
      forall k, 1 <= k <= length emails ->
        sentAt hasWindow item emails (visited direction (length emails) start k)
  | Thrown => False
  end.
Proof.
  unfold findNextUnsent. destruct emails as [|e emails].
  - simpl. intros k Hk. lia.
  - apply searchLoop_spec. simpl. lia.
Qed.

Lemma all_sent_iff hasWindow item emails direction start :
  start < length emails ->
  (forall k, 1 <= k <= length emails ->
     sentAt hasWindow item emails (visited direction (length emails) start k)) <->
  (forall e, e ∈ emails -> isSent hasWindow e item = true).
Proof.
  intros Hs. split.
  - intros Hall e [j Hj]%list_elem_of_lookup_1.
    destruct (offsetIndex_onto direction (length emails) start j Hs)
      as (k & Hk & Hkj); [by eapply lookup_lt_Some|].
    destruct (Hall k Hk) as (e' & He' & Hsent).
    rewrite visited_offset, Hkj, Hj in He' by lia. by injection He' as <-.
  - intros Hall k Hk.
    assert (Hlt : visited direction (length emails) start k < length emails).
    { destruct k as [|k]; [lia|]. simpl. apply stepIndex_lt. lia. }
    destruct (lookup_lt_is_Some_2 _ _ Hlt) as [e He].
    exists e. split; [done|]. apply Hall. by eapply list_elem_of_lookup_2.
Qed.
Lemma findNextUnsent_none_iff hasWindow item emails start direction :
  start < length emails ->
  findNextUnsent hasWindow item emails start direction = NotFound <->
  forall e, e ∈ emails -> isSent hasWindow e item = true.
Proof.
  intros Hs. rewrite <- (all_sent_iff hasWindow item emails direction start Hs).
  pose proof (findNextUnsent_spec hasWindow item emails start direction) as H.
  destruct (findNextUnsent hasWindow item emails start direction) as [i| |];
    [|done|done].
  split; [done|]. intros Hall.
  destruct H as (k & Hk & -> & _ & (e & He & Hun) & _).
  destruct (Hall k Hk) as (e' & He' & Hsent). congruence.
Qed.

End Paging.

(** X14: [findNextUnsent] never fails on a missing element, and an index
    it returns is within the list and holds an email that is not marked as
    sent. *)
Theorem X14_search_is_safe hasWindow item emails start direction :
  findNextUnsent hasWindow item emails start direction <> Thrown /\
  forall i, findNextUnsent hasWindow item emails start direction = Found i ->
    i < length emails /\
    exists e, emails !! i = Some e /\ isSent hasWindow e item = false.
Proof.
  pose proof (findNextUnsent_spec hasWindow item emails start direction) as H.
  destruct (findNextUnsent hasWindow item emails start direction) as [i| |];
    [|split; [done|by intros ?]|done].
  split; [done|]. intros i' [= <-].
  destruct H as (k & _ & _ & Hi & He & _). done.
Qed.

(** X15: started from an index of the list, [findNextUnsent] returns [null]
    exactly when every email of the list is marked as sent. *)
Theorem X15_search_fails_iff_all_sent hasWindow item emails start direction :
  start < length emails ->
  findNextUnsent hasWindow item emails start direction = NotFound <->
  forall e, e ∈ emails -> isSent hasWindow e item = true.
Proof. apply findNextUnsent_none_iff. Qed.

Lemma X15_search_fails_iff_all_sent_witness :
  findNextUnsent true (StringArray ["a@x.com"; "b@x.com"]) ["A@x.com"; "b@x.com"] 0 Prev
  = NotFound <->
  forall e, e ∈ ["A@x.com"; "b@x.com"] ->
    isSent true e (StringArray ["a@x.com"; "b@x.com"]) = true.
Proof. apply X15_search_fails_iff_all_sent. simpl. lia. Defined.

(** X16: started from an index of the list, the index [findNextUnsent]
    returns is the nearest one in the direction asked, cyclically: it lies
    [k] places further, with [k] between 1 and the length of the list (so
    the start itself comes last), and the emails at all nearer places are
    marked as sent. *)
Theorem X16_search_finds_nearest hasWindow item emails start direction i :
  start < length emails ->
  findNextUnsent hasWindow item emails start direction = Found i ->
  exists k, 1 <= k <= length emails /\
    i = offsetIndex direction (length emails) start k /\
    forall k', 1 <= k' < k ->
      sentAt hasWindow item emails (offsetIndex direction (length emails) start k').
Proof.
  intros Hs Hf.
  pose proof (findNextUnsent_spec hasWindow item emails start direction) as H.
  rewrite Hf in H. destruct H as (k & Hk & -> & _ & _ & Hbefore).
  exists k. split; [done|]. split; [apply visited_offset; lia|].
  intros k' Hk'. rewrite <- visited_offset by lia. by apply Hbefore.
Qed.

Lemma X16_search_finds_nearest_witness :
  exists k, 1 <= k <= 3 /\ 0 = offsetIndex Next 3 1 k /\
    forall k', 1 <= k' < k ->
      sentAt true (StringArray ["c@x.com"]) ["a@x.com"; "b@x.com"; "C@x.com"]
        (offsetIndex Next 3 1 k').
Proof.
  apply (X16_search_finds_nearest true (StringArray ["c@x.com"])
           ["a@x.com"; "b@x.com"; "C@x.com"] 1 Next 0).
  - simpl. lia.
  - vm_compute. reflexivity.
Defined.

(** X17: [goToPage] keeps the current index within the list; it shows the
    toast exactly when only unsent emails are shown and every email is
    marked as sent, and then the index stays where it was. *)
Theorem X17_paging_stays_in_range hasWindow item emails showUnsentOnly current direction :
  current < length emails ->
  exists next toast,
    goToPage hasWindow item emails showUnsentOnly current direction = Some (next, toast) /\
    next < length emails /\
    (toast = true <->
     showUnsentOnly = true /\ forall e, e ∈ emails -> isSent hasWindow e item = true) /\
    (toast = true -> next = current).
Proof.
  intros Hc. unfold goToPage. destruct emails as [|e0 emails0] eqn:Ee; [simpl in Hc; lia|].
  rewrite <- Ee in *. clear Ee.
  destruct showUnsentOnly.
  - pose proof (findNextUnsent_none_iff hasWindow item emails current direction Hc)
      as Hnone.
    pose proof (findNextUnsent_spec hasWindow item emails current direction) as H.
    destruct (findNextUnsent hasWindow item emails current direction) as [i| |];
      [| |done].
    + destruct H as (k & _ & _ & Hi & _). exists i, false.
      split; [done|]. split; [done|]. split; [|done].
      split; [done|]. intros [_ Hall]. by apply Hnone in Hall.
    + exists current, true. split; [done|]. split; [done|]. split; [|done].
      split; [|done]. intros _. split; [done|]. by apply Hnone.
  - exists (stepIndex direction (length emails) current), false.
    split; [done|]. split; [apply stepIndex_lt; lia|]. split; [|done].
    split; [done|]. by intros [? _].
Qed.

Lemma X17_paging_stays_in_range_witness :
  exists next toast,
    goToPage true (StringArray ["a@x.com"; "b@x.com"]) ["a@x.com"; "b@x.com"] true 1 Next
    = Some (next, toast) /\
    next < 2 /\
    (toast = true <->
     true = true /\
     forall e, e ∈ ["a@x.com"; "b@x.com"] ->
       isSent true e (StringArray ["a@x.com"; "b@x.com"]) = true) /\
    (toast = true -> next = 1).
Proof.
  apply (X17_paging_stays_in_range true (StringArray ["a@x.com"; "b@x.com"])
           ["a@x.com"; "b@x.com"] true 1 Next).
  simpl. lia.
Defined.



(** ** Templates *)

Section Templates.
Import Js.

Lemma append_assoc_cons (b : string) c (t : string) :
  (b +:+ String c "") +:+ t = b +:+ String c t.
Proof. induction b as [|d b IH]; [done|]. by rewrite !append_cons, IH. Qed.

Lemma startsWith_append t s : startsWith t (t +:+ s) = true.
Proof.
  induction t as [|c t IH]; [done|]. rewrite append_cons. simpl.
  by rewrite Ascii.eqb_refl, IH.
Qed.

Lemma startsWith_cons a (n : string) c (h : string) :
  startsWith (String a n) (String c h) = Ascii.eqb a c && startsWith n h.
Proof. done. Qed.

Lemma replaceAllFrom_scan tok r b c rest :
  replaceAllFrom tok r b 0 (String c rest)
  = if startsWith tok (String c rest) then
      getSubstitution tok b (dropChars (String.length tok) (String c rest)) r
      +:+ replaceAllFrom tok r (b +:+ String c "") (String.length tok - 1) rest
    else String c (replaceAllFrom tok r (b +:+ String c "") 0 rest).
Proof. done. Qed.

Lemma replaceAllFrom_skip tok r b k c rest :
  replaceAllFrom tok r b (S k) (String c rest)
  = replaceAllFrom tok r (b +:+ String c "") k rest.
Proof. done. Qed.

Lemma getSubstitution_plain matched before after r :
  allOf notDollar r = true -> getSubstitution matched before after r = r.
Proof.
  induction r as [|c r IH]; simpl; [done|].
  intros [Hc Hr]%andb_true_iff. unfold notDollar in Hc.
  apply negb_true_iff in Hc. rewrite Hc. by rewrite IH.
Qed.

(** Without a dollar sign in the replacement, the text already passed
    plays no role. *)
Lemma before_irrelevant tok r :
  allOf notDollar r = true ->
  forall s b b' k, replaceAllFrom tok r b k s = replaceAllFrom tok r b' k s.
Proof.
  intros Hr. induction s as [|c s IH]; intros b b' k; [done|].
  destruct k as [|k].
  - rewrite !replaceAllFrom_scan, !getSubstitution_plain by done.
    destruct (startsWith tok (String c s)).
    + f_equal. apply IH.
    + f_equal. apply IH.
  - rewrite !replaceAllFrom_skip. apply IH.
Qed.

Lemma replaceAll_absent tok r s :
  includes tok s = false -> replaceAll tok r s = s.
Proof.
  unfold replaceAll. generalize "" as b.
  induction s as [|c s IH]; intros b; [done|]. simpl includes.
  intros [Hhere Hlater]%orb_false_iff.
  rewrite replaceAllFrom_scan, Hhere. f_equal. by apply IH.
Qed.

Section Pass.
Variables tok' r : string.
Hypothesis Hr : allOf notDollar r = true.

Let tok := String "{" tok'.

Lemma pass_skip (u s b : string) :
  replaceAllFrom tok r b (String.length u) (u +:+ s) = replaceAll tok r s.
Proof.
  revert b. induction u as [|c u IH]; intros b.
  - rewrite append_nil_l. by apply before_irrelevant.
  - rewrite append_cons. simpl String.length. rewrite replaceAllFrom_skip. apply IH.
Qed.

(** A piece without an opening brace is passed unchanged. *)
Lemma pass_text (t s : string) :
  allOf notBrace t = true -> replaceAll tok r (t +:+ s) = t +:+ replaceAll tok r s.
Proof.
  unfold replaceAll. generalize "" at 1 as b.
  induction t as [|c t IH]; intros b Ht.
  - rewrite !append_nil_l. by apply before_irrelevant.
  - simpl in Ht. apply andb_true_iff in Ht as [Hc Ht].
    unfold notBrace in Hc. apply negb_true_iff in Hc.
    rewrite !append_cons, replaceAllFrom_scan. unfold tok at 1.
    rewrite startsWith_cons, Hc. simpl. f_equal. by apply IH.
Qed.

(** The token is replaced by the replacement, written as it is. *)
Lemma pass_token (s : string) :
  replaceAll tok r (tok +:+ s) = r +:+ replaceAll tok r s.
Proof.
  unfold replaceAll at 1. unfold tok at 2. rewrite append_cons, replaceAllFrom_scan.
  change (String "{" (tok' +:+ s)) with (tok +:+ s).
  rewrite startsWith_append, getSubstitution_plain by done. f_equal.
  unfold tok at 2. simpl String.length.
  replace (S (String.length tok') - 1) with (String.length tok') by lia.
  apply pass_skip.
Qed.
End Pass.

(** Each pass leaves the token of the other placeholder as it is. *)
Lemma emailPass_nameToken r s :
  allOf notDollar r = true ->
  replaceAll emailToken r (nameToken +:+ s) = nameToken +:+ replaceAll emailToken r s.
Proof.
  intros Hr. unfold replaceAll at 1, nameToken, emailToken.
  rewrite !append_cons, append_nil_l.
  do 8 (rewrite replaceAllFrom_scan; simpl startsWith; cbv iota; f_equal).
  by apply before_irrelevant.
Qed.

Lemma namePass_emailToken r s :
  allOf notDollar r = true ->
  replaceAll nameToken r (emailToken +:+ s) = emailToken +:+ replaceAll nameToken r s.
Proof.
  intros Hr. unfold replaceAll at 1, nameToken, emailToken.
  rewrite !append_cons, append_nil_l.
  do 9 (rewrite replaceAllFrom_scan; simpl startsWith; cbv iota; f_equal).
  by apply before_irrelevant.
Qed.

Lemma emailPass_render e segments :
  allOf notDollar e = true -> plainPieces segments ->
  replaceAll emailToken e (templateSource segments) = render e nameToken segments.
Proof.
  intros He. unfold templateSource.
  induction segments as [|seg segments IH]; intros Hp; [done|].
  assert (Hp' : plainPieces segments) by (intros s Hs; apply Hp; by right).
  specialize (IH Hp').
  destruct seg as [t| |]; simpl; rewrite <- IH.
  - apply (pass_text "{email}}" e He). apply Hp. left.
  - apply (pass_token "{email}}" e He).
  - by apply emailPass_nameToken.
Qed.

(** The name pass over a text whose email slots hold [x], a string that
    this pass leaves as it is. *)
Lemma namePass_render x n segments :
  allOf notDollar n = true -> plainPieces segments ->
  (forall s, replaceAll nameToken n (x +:+ s) = x +:+ replaceAll nameToken n s) ->
  replaceAll nameToken n (render x nameToken segments) = render x n segments.
Proof.
  intros Hn Hp Hx.
  induction segments as [|seg segments IH]; [done|].
  assert (Hp' : plainPieces segments) by (intros s Hs; apply Hp; by right).
  specialize (IH Hp').
  destruct seg as [t| |]; simpl; rewrite <- IH.
  - apply (pass_text "{name}}" n Hn). apply Hp. left.
  - apply Hx.
  - apply (pass_token "{name}}" n Hn).
Qed.

Lemma applyTemplate_unfold template email name :
  applyTemplate template (mkValues email name)
  = let substituted s :=
      match email with
      | Some e => if truthy e then replaceAll emailToken e s else s
      | None => s
      end in
    mkTemplate
      (replaceAll nameToken (nameOrEmpty name) (substituted (tpl_subject template)))
      (replaceAll nameToken (nameOrEmpty name) (substituted (tpl_body template))).
Proof.
  unfold applyTemplate. simpl.
  assert ((if truthyOpt name then match name with Some n => n | None => "" end else "")
          = nameOrEmpty name) as ->.
  { destruct name as [[|c n]|]; done. }
  destruct email as [[|c e]|]; done.
Qed.
End Templates.

(** X19: a template in which neither [{{email}}] nor [{{name}}] occurs is
    returned as it is, whatever the values. *)
Theorem X19_template_without_tokens template values :
  Js.includes emailToken (tpl_subject template) = false ->
  Js.includes nameToken (tpl_subject template) = false ->
  Js.includes emailToken (tpl_body template) = false ->
  Js.includes nameToken (tpl_body template) = false ->
  applyTemplate template values = template.
Proof.
  intros H1 H2 H3 H4. destruct template as [s b], values as [e n]. simpl in *.
  rewrite applyTemplate_unfold. cbv zeta. simpl.
  assert (forall t, Js.includes emailToken t = false ->
            match e with
            | Some e0 => if Js.truthy e0 then replaceAll emailToken e0 t else t
            | None => t
            end = t) as He.
  { intros t Ht. destruct e as [e0|]; [|done].
    destruct (Js.truthy e0); [|done]. by apply replaceAll_absent. }
  rewrite !He by done. by rewrite !replaceAll_absent.
Qed.

Lemma X19_template_without_tokens_witness :
  applyTemplate (mkTemplate "Hello {name}" "Your address: {{ email }}")
    (mkValues (Some "a$&b@x.com") (Some "Al"))
  = mkTemplate "Hello {name}" "Your address: {{ email }}".
Proof. apply X19_template_without_tokens; vm_compute; reflexivity. Defined.

(** X20: when the literal pieces of the subject and of the body contain no
    opening brace, and the address is non-empty and contains neither an
    opening brace nor a dollar sign, and the name contains no dollar sign,
    [applyTemplate] writes the address in place of every [{{email}}] and the
    name (nothing when it is missing) in place of every [{{name}}], and
    leaves the pieces as they are. *)
Theorem X20_placeholders_substituted subject body email name :
  plainPieces subject -> plainPieces body ->
  email <> "" ->
  allOf notBrace email = true -> allOf notDollar email = true ->
  allOf notDollar (nameOrEmpty name) = true ->
  applyTemplate (mkTemplate (templateSource subject) (templateSource body))
    (mkValues (Some email) name)
  = mkTemplate (render email (nameOrEmpty name) subject)
               (render email (nameOrEmpty name) body).
Proof.
  intros Hs Hb Hne Hbrace Hdollar Hname.
  rewrite applyTemplate_unfold. cbv zeta. simpl.
  assert (Js.truthy email = true) as -> by (by destruct email).
  rewrite !emailPass_render by done.
  rewrite !namePass_render; try done;
    intros s; by apply (pass_text "{name}}" _ Hname).
Qed.

Lemma X20_placeholders_substituted_witness :
  applyTemplate
    (mkTemplate "Hello {{name}} <{{email}}>" "To {{email}}: welcome, {{name}}!")
    (mkValues (Some "al@x.com") None)
  = mkTemplate "Hello  <al@x.com>" "To al@x.com: welcome, !".
Proof.
  apply (X20_placeholders_substituted
           [Text "Hello "; NameSlot; Text " <"; EmailSlot; Text ">"]
           [Text "To "; EmailSlot; Text ": welcome, "; NameSlot; Text "!"]
           "al@x.com" None).
  - intros s Hs.
    repeat (apply elem_of_cons in Hs as [Hs|Hs];
            [first [by injection Hs as -> | discriminate]|]).
    by apply not_elem_of_nil in Hs.
  - intros s Hs.
    repeat (apply elem_of_cons in Hs as [Hs|Hs];
            [first [by injection Hs as -> | discriminate]|]).
    by apply not_elem_of_nil in Hs.
  - discriminate.
  - reflexivity.
  - reflexivity.
  - reflexivity.
Defined.

(** X21: when the address is missing or empty, every [{{email}}] stays in
    the text as it is, while every [{{name}}] is still replaced (pieces
    without an opening brace, name without a dollar sign). *)
Theorem X21_missing_email_keeps_token subject body email name :
  plainPieces subject -> plainPieces body ->
  email = None \/ email = Some "" ->
  allOf notDollar (nameOrEmpty name) = true ->
  applyTemplate (mkTemplate (templateSource subject) (templateSource body))
    (mkValues email name)
  = mkTemplate (render emailToken (nameOrEmpty name) subject)
               (render emailToken (nameOrEmpty name) body).
Proof.
  intros Hs Hb He Hname. rewrite applyTemplate_unfold. cbv zeta. simpl.
  assert (forall t, match email with
                    | Some e => if Js.truthy e then replaceAll emailToken e t else t
                    | None => t
                    end = t) as Hkeep by (by destruct He as [->| ->]).
  rewrite !Hkeep. unfold templateSource.
  rewrite !namePass_render; try done; intros s; by apply namePass_emailToken.
Qed.

Lemma X21_missing_email_keeps_token_witness :
  applyTemplate (mkTemplate "Hi {{name}}" "Write to {{email}}") (mkValues (Some "") (Some "Al"))
  = mkTemplate "Hi Al" "Write to {{email}}".
Proof.
  apply (X21_missing_email_keeps_token
           [Text "Hi "; NameSlot] [Text "Write to "; EmailSlot] (Some "") (Some "Al")).
  - intros s Hs.
    repeat (apply elem_of_cons in Hs as [Hs|Hs];
            [first [by injection Hs as -> | discriminate]|]).
    by apply not_elem_of_nil in Hs.
  - intros s Hs.
    repeat (apply elem_of_cons in Hs as [Hs|Hs];
            [first [by injection Hs as -> | discriminate]|]).
    by apply not_elem_of_nil in Hs.
  - by right.
  - reflexivity.
Defined.
